(** * The Lorenz-96 GCM analogue: trajectory drivers

    A shallow embedding of the time-integration code of the L96 notebooks:

    - [GCM] of [notebooks/gcm-analogue.ipynb] (forward Euler with a
      polynomial closure and a divergence guard);
    - the classes [GCM_without_parameterization] and [GCM_network] of
      [notebooks/L96_online_implement_NN.ipynb] (a pluggable step scheme,
      without and with a neural-network closure).

    NumPy's [float64] scalars are the kernel's binary64 floats, so that
    NaN, infinities, signed zeros and rounding behave as they do in the
    program (NaN payloads are not distinguished).  One-dimensional arrays
    are lists of floats, the history matrix is a list of rows.  A Python
    exception is the value [None].

    The arrays of the model have one element type, [float64].  The
    classes also run on a [float32] initial condition, as the notebook
    calls them: the state then stays [float32] from step to step, while
    the history, created by [np.zeros], holds its [float64] image.  The
    model does not tell a state from its image: where a statement on the
    classes says that a row is a state, it says that the row holds the
    values of that state.  A row read back from the history is a
    [float64] array, and a run started from it is a [float64] run.

    The drivers are embedded twice: as functions on array values, and as
    programs over a store of array objects (section "Store"), where the
    caller's arrays live at locations and the drivers allocate and assign.
    The second embedding is proved to compute the first. *)

From Stdlib Require Import Floats ZArith Lia Bool.
From stdpp Require Import base option list.

(** ** NumPy kernel *)

(** A one-dimensional [float64] array, and a two-dimensional one. *)
Abbreviation ndarray := (list float).
Abbreviation ndarray2 := (list (list float)).

Module np.

(** Python's conversion of an [int] to a [float]. *)
Definition float_of_nat (n : nat) : float :=
  of_uint63 (Uint63.of_Z (Z.of_nat n)).

Definition nan : float := PrimFloat.nan.

(** [a op b] on one-dimensional arrays, with NumPy's broadcasting rule:
    equal lengths combine entry by entry, a length-one operand is
    stretched, any other pair of shapes raises [ValueError]. *)
Definition broadcast (op : float -> float -> float)
    (a b : ndarray) : option ndarray :=
  if decide (length a = length b) then Some (zip_with op a b)
  else match a, b with
       | [x], _ => Some (map (op x) b)
       | _, [y] => Some (map (fun x => op x y) a)
       | _, _ => None
       end.

Definition add := broadcast PrimFloat.add.
Definition subtract := broadcast PrimFloat.sub.

(** [c * a] for a Python scalar [c]. *)
Definition scale (c : float) (a : ndarray) : ndarray :=
  map (PrimFloat.mul c) a.

Definition abs (a : ndarray) : ndarray := map PrimFloat.abs a.

(** The reduction behind [ndarray.max]: a NaN operand is propagated. *)
Definition maximum (a b : float) : float :=
  if is_nan a then a
  else if is_nan b then b
  else if (a <? b)%float then b else a.

(** [a.max()]: raises on an empty array. *)
Definition max (a : ndarray) : option float :=
  match a with
  | [] => None
  | x :: r => Some (fold_left maximum r x)
  end.

(** [np.polyval(p, x)]:
    [y = zeros_like(x); for pv in p: y = y * x + pv]. *)
Definition polyval (p : list float) (x : ndarray) : ndarray :=
  fold_left
    (fun y pv => map (fun t => (t + pv)%float) (zip_with PrimFloat.mul y x))
    p (map (fun _ => 0%float) x).

(** [dt * np.arange(n)]. *)
Definition time_axis (dt : float) (n : nat) : ndarray :=
  map (fun i => (dt * float_of_nat i)%float) (seq 0 n).

(** [np.zeros((n, K)) * np.nan]. *)
Definition nan_row (K : nat) : ndarray := replicate K (0 * nan)%float.
Definition nan_matrix (n K : nat) : ndarray2 := replicate n (nan_row K).

(** [a[n] = v] on a one-dimensional array; [IndexError] out of range. *)
Definition setitem (a : ndarray) (n : nat) (v : float) : option ndarray :=
  if decide (n < length a) then Some (<[n := v]> a) else None.

(** The values written by an assignment of [X] to a row of [K] columns:
    a length-one [X] is stretched, another length raises [ValueError]. *)
Definition stretch (K : nat) (X : ndarray) : option ndarray :=
  if decide (length X = K) then Some X
  else match X with
       | [x] => Some (replicate K x)
       | _ => None
       end.

(** [hist[n] = X] on a matrix with [K] columns: the values of [X] are
    copied into row [n]; a row out of range raises [IndexError]. *)
Definition setrow (hist : ndarray2) (K n : nat) (X : ndarray)
    : option ndarray2 :=
  if decide (n < length hist) then
    row ← stretch K X; Some (<[n := row]> hist)
  else None.

(** [np.squeeze] of a two-dimensional array of shape [(1, N)] or
    [(K, 1)].  An array that stays two-dimensional cannot be added to a
    state and stored in a history row; the model reports the failure
    here. *)
Definition squeeze (m : ndarray2) : option ndarray :=
  match m with
  | [row] => Some row
  | _ => if forallb (fun r => Nat.eqb (length r) 1) m
         then Some (concat m) else None
  end.

End np.

(** ** The slow tendency and the step schemes of [L96_model] *)

(** Modelled from the spec: [L96_eq1_xdot] of [L96_model.py], which is not
    among the sources.  Entry [k] of the tendency is
    [-X[k-1] * (X[k-2] - X[k+1]) - X[k] + F], indices taken modulo [K]. *)
Definition L96_entry (X : ndarray) (F : float) (k : nat) : float :=
  let K := length X in
  let x := fun i : nat => default 0%float (X !! (i mod K)) in
  let xm1 := x (k + K - 1) in
  let xm2 := x (k + 2 * K - 2) in
  let xp1 := x (k + 1) in
  (PrimFloat.opp xm1 * (xm2 - xp1) - x k + F)%float.

Definition L96_eq1_xdot (X : ndarray) (F : float) : ndarray :=
  map (L96_entry X F) (seq 0 (length X)).

Section StepSchemes.
Context {P : Type}.

(** A tendency function [fn(X, *params)]. *)
Definition tendency := ndarray -> P -> option ndarray.

(** Modelled from the spec: [EulerFwd] of [L96_model.py]:
    [state + dt * f(state)], one tendency evaluation per step. *)
Definition EulerFwd (fn : tendency) (dt : float) (X : ndarray) (p : P)
    : option ndarray :=
  k1 ← fn X p;
  np.add X (np.scale dt k1).

(** Modelled from the spec: [RK4] of [L96_model.py]: four tendency
    evaluations per step, combined as [(k1 + 2 k2 + 2 k3 + k4) / 6]. *)
Definition RK4 (fn : tendency) (dt : float) (X : ndarray) (p : P)
    : option ndarray :=
  k1 ← fn X p;
  X2 ← np.add X (np.scale (0.5 * dt)%float k1);
  k2 ← fn X2 p;
  X3 ← np.add X (np.scale (0.5 * dt)%float k2);
  k3 ← fn X3 p;
  X4 ← np.add X (np.scale dt k3);
  k4 ← fn X4 p;
  s12 ← np.add k1 (np.scale 2%float k2);
  s123 ← np.add s12 (np.scale 2%float k3);
  s ← np.add s123 k4;
  np.add X (np.scale dt (map (fun t => (t / 6)%float) s)).

End StepSchemes.

(** A step scheme uses its extra argument only by passing it on to the
    tendency function, as [fn(X, *params)]. *)
Definition forwards_params {P : Type}
    (scheme : @tendency P -> float -> ndarray -> P -> option ndarray)
    : Prop :=
  forall (fn : @tendency P) (dt : float) (X : ndarray) (p1 p2 : P),
    (forall Y, fn Y p1 = fn Y p2) -> scheme fn dt X p1 = scheme fn dt X p2.

(** A step scheme returns, for a tendency function that keeps the length
    of its argument, a state of the length of its argument. *)
Definition keeps_length {P : Type}
    (scheme : @tendency P -> float -> ndarray -> P -> option ndarray)
    : Prop :=
  forall (fn : @tendency P) (dt : float) (p : P),
    (forall Y, exists d, fn Y p = Some d /\ length d = length Y) ->
    forall X, exists X', scheme fn dt X p = Some X' /\ length X' = length X.

(** ** [GCM] of gcm-analogue *)

(** The update of one loop iteration:
    [X + dt * (L96_eq1_xdot(X, F) - np.polyval(param, X))]. *)
Definition GCM_step (F dt : float) (param : list float) (X : ndarray)
    : option ndarray :=
  t ← np.subtract (L96_eq1_xdot X F) (np.polyval param X);
  np.add X (np.scale dt t).

(** The divergence guard: [np.abs(X).max() > 1e3]. *)
Definition diverged (X : ndarray) : option bool :=
  m ← np.max (np.abs X);
  Some (1e3 <? m)%float.

(** The loop [for n in range(nt)], entered at index [n] with [steps]
    iterations to go; [break] returns the arrays as they are. *)
Fixpoint GCM_loop (F dt : float) (param : list float) (K : nat)
    (steps n : nat) (X : ndarray) (hist : ndarray2) (time : ndarray)
    : option (ndarray2 * ndarray) :=
  match steps with
  | O => Some (hist, time)
  | S steps' =>
      X' ← GCM_step F dt param X;
      stop ← diverged X';
      if stop : bool then Some (hist, time)
      else
        hist' ← np.setrow hist K n X';
        time' ← np.setitem time n (dt * np.float_of_nat (n + 1))%float;
        GCM_loop F dt param K steps' (n + 1) X' hist' time'
  end.

(** [def GCM(X0, F, dt, nt, param=[0])]. *)
Definition GCM (X0 : ndarray) (F dt : float) (nt : nat)
    (param : list float) : option (ndarray2 * ndarray) :=
  let time := np.time_axis dt nt in
  let hist := np.nan_matrix nt (length X0) in
  let X := X0 in
  GCM_loop F dt param (length X0) nt 0 X hist time.

Definition default_param : list float := [0%float].

(** The states [GCM] stores in [steps] iterations from [X]: the successive
    updates, up to and without the first one that trips the guard. *)
Fixpoint GCM_states (F dt : float) (param : list float)
    (steps : nat) (X : ndarray) : list ndarray :=
  match steps with
  | O => []
  | S steps' =>
      match GCM_step F dt param X with
      | Some X' =>
          match diverged X' with
          | Some false => X' :: GCM_states F dt param steps' X'
          | _ => []
          end
      | None => []
      end
  end.

(** The state after [n] iterations of the update, from [X]. *)
Fixpoint GCM_iter (F dt : float) (param : list float)
    (n : nat) (X : ndarray) : option ndarray :=
  match n with
  | O => Some X
  | S n' => X' ← GCM_step F dt param X; GCM_iter F dt param n' X'
  end.



(** The polynomial of [np.polyval(p, .)] at one entry. *)
Definition horner (p : list float) (x : float) : float :=
  fold_left (fun y pv => (y * x + pv)%float) p 0%float.

(** The time stamp written with the row of index [n]: [dt * (n + 1)]. *)
Definition stamp (dt : float) (n : nat) : float :=
  (dt * np.float_of_nat (n + 1))%float.

(** The arrays [GCM] returns when it has stored the states [sts]: the
    rows not reached keep the NaN they were created with, their time
    entries keep the value [dt * n] of [dt * np.arange(nt)]. *)
Definition GCM_result (dt : float) (nt K : nat) (sts : list ndarray)
    : ndarray2 * ndarray :=
  (sts ++ replicate (nt - length sts) (np.nan_row K),
   map (stamp dt) (seq 0 (length sts))
     ++ map (fun i => (dt * np.float_of_nat i)%float)
          (seq (length sts) (nt - length sts))).

(** ** The classes of L96_online_implement_NN *)

(** A step scheme [time_stepping(fn, dt, X, *params)]. *)
Definition stepper (P : Type) : Type :=
  @tendency P -> float -> ndarray -> P -> option ndarray.

Section Call.
Context {P : Type}.
Variable time_stepping : stepper P.
Variable rhs : @tendency P.

(** The loop of [__call__], the same text in both classes:
    [X = self.time_stepping(self.rhs, dt, X, param)] and
    [hist[n + 1], time[n + 1] = X, dt * (n + 1)]. *)
Fixpoint call_loop (dt : float) (param : P) (K : nat)
    (steps n : nat) (X : ndarray) (hist : ndarray2) (time : ndarray)
    : option (ndarray2 * ndarray) :=
  match steps with
  | O => Some (hist, time)
  | S steps' =>
      X' ← time_stepping rhs dt X param;
      hist' ← np.setrow hist K (n + 1) X';
      time' ← np.setitem time (n + 1) (dt * np.float_of_nat (n + 1))%float;
      call_loop dt param K steps' (n + 1) X' hist' time'
  end.

(** The body of [__call__(self, X0, dt, nt, param=[0])]. *)
Definition call (X0 : ndarray) (dt : float) (nt : nat) (param : P)
    : option (ndarray2 * ndarray) :=
  let time := np.time_axis dt (nt + 1) in
  let hist := np.nan_matrix (nt + 1) (length X0) in
  let X := X0 in
  hist0 ← np.setrow hist (length X0) 0 X;
  call_loop dt param (length X0) nt 0 X hist0 time.

(** The rows the loop writes in [steps] iterations from [X]; an
    exception of the step scheme or of the row assignment ends the
    call. *)
Fixpoint call_rows (dt : float) (param : P) (K : nat)
    (steps : nat) (X : ndarray) : option (list ndarray) :=
  match steps with
  | O => Some []
  | S steps' =>
      X' ← time_stepping rhs dt X param;
      row ← np.stretch K X';
      rows ← call_rows dt param K steps' X';
      Some (row :: rows)
  end.

(** The state after [n] calls of the step scheme, from [X]. *)
Fixpoint call_iter (dt : float) (param : P)
    (n : nat) (X : ndarray) : option ndarray :=
  match n with
  | O => Some X
  | S n' => X' ← time_stepping rhs dt X param; call_iter dt param n' X'
  end.

End Call.

Module GCM_without_parameterization.
Section Class.
Context {P : Type}.

(** [__init__(self, F, time_stepping=RK4)]. *)
Record t := { F : float; time_stepping : stepper P }.

(** [def rhs(self, X, _)]. *)
Definition rhs (self : t) (X : ndarray) (_ : P) : option ndarray :=
  Some (L96_eq1_xdot X (F self)).

Definition __call__ (self : t) (X0 : ndarray) (dt : float) (nt : nat)
    (param : P) : option (ndarray2 * ndarray) :=
  call (time_stepping self) (rhs self) X0 dt nt param.
End Class.
Arguments t : clear implicits.
End GCM_without_parameterization.

(** A network as the driver uses it: the input width of its first layer
    and its inference on a batch (a matrix with one sample per row). *)
Record network := {
  in_features : nat;
  forward : ndarray2 -> option ndarray2
}.

Module GCM_network.
Section Class.
Context {P : Type}.

(** [__init__(self, F, network, time_stepping=RK4)]. *)
Record t := { F : float; net : network; time_stepping : stepper P }.

(** The batch handed to the network: [torch.unsqueeze(X_torch, 1)]
    when the first layer has one input, [np.expand_dims(X, 0)]
    otherwise. *)
Definition X_torch (self : t) (X : ndarray) : ndarray2 :=
  if decide (in_features (net self) = 1)
  then map (fun x => [x]) X
  else [X].

(** [def rhs(self, X, _)]:
    [L96_eq1_xdot(X, self.F) + np.squeeze(self.network(X_torch))]. *)
Definition rhs (self : t) (X : ndarray) (_ : P) : option ndarray :=
  out ← forward (net self) (X_torch self X);
  U ← np.squeeze out;
  np.add (L96_eq1_xdot X (F self)) U.

Definition __call__ (self : t) (X0 : ndarray) (dt : float) (nt : nat)
    (param : P) : option (ndarray2 * ndarray) :=
  call (time_stepping self) (rhs self) X0 dt nt param.
End Class.
Arguments t : clear implicits.
End GCM_network.

(** ** Store: the drivers as programs over array objects *)

Module Store.

Abbreviation loc := nat.

(** An object of the store: a one-dimensional array (or a Python list of
    numbers), or a matrix with its number of columns. *)
Inductive object :=
| Vec (a : ndarray)
| Mat (K : nat) (rows : ndarray2).

Abbreviation store := (list object).

(** A computation reads and updates the store, or raises. *)
Definition M (A : Type) : Type := store -> option (A * store).

Definition ret {A} (a : A) : M A := fun s => Some (a, s).
Definition bind {A B} (c : M A) (k : A -> M B) : M B :=
  fun s => match c s with
           | Some (a, s') => k a s'
           | None => None
           end.
Definition lift {A} (o : option A) : M A :=
  fun s => match o with Some a => Some (a, s) | None => None end.

Definition alloc (o : object) : M loc :=
  fun s => Some (length s, s ++ [o]).

Definition load (l : loc) : M ndarray :=
  fun s => match s !! l with
           | Some (Vec a) => Some (a, s)
           | _ => None
           end.

(** [a[n] = v] on the array at [l]. *)
Definition assign_item (l : loc) (n : nat) (v : float) : M unit :=
  fun s => match s !! l with
           | Some (Vec a) =>
               match np.setitem a n v with
               | Some a' => Some (tt, <[l := Vec a']> s)
               | None => None
               end
           | _ => None
           end.

(** [hist[n] = X]: the values of the array at [X] are copied into row
    [n] of the matrix at [l]. *)
Definition assign_row (l : loc) (n : nat) (X : loc) : M unit :=
  fun s => match s !! l, s !! X with
           | Some (Mat K rows), Some (Vec x) =>
               match np.setrow rows K n x with
               | Some rows' => Some (tt, <[l := Mat K rows']> s)
               | None => None
               end
           | _, _ => None
           end.

#[global] Instance M_ret : MRet M := @ret.
#[global] Instance M_bind : MBind M := fun A B k c => bind c k.

(** [GCM] of gcm-analogue.  [X = X + dt * (...)] binds [X] to a new
    array; the previous one is left as it was. *)
Fixpoint GCM_loop (F dt : float) (param hist time : loc)
    (steps n : nat) (X : loc) : M unit :=
  match steps with
  | O => mret tt
  | S steps' =>
      x ← load X;
      p ← load param;
      x' ← lift (GCM_step F dt p x);
      X' ← alloc (Vec x');
      stop ← lift (diverged x');
      if stop : bool then mret tt
      else
        assign_row hist n X';;
        assign_item time n (dt * np.float_of_nat (n + 1))%float;;
        GCM_loop F dt param hist time steps' (n + 1) X'
  end.

Definition GCM (X0 : loc) (F dt : float) (nt : nat) (param : loc)
    : M (loc * loc) :=
  time ← alloc (Vec (np.time_axis dt nt));
  x0 ← load X0;
  hist ← alloc (Mat (length x0) (np.nan_matrix nt (length x0)));
  X ← alloc (Vec x0);
  GCM_loop F dt param hist time nt 0 X;;
  mret (hist, time).

Section Call.
Context {P : Type}.
Variable time_stepping : stepper P.
Variable rhs : @tendency P.

Fixpoint call_loop (dt : float) (param : P) (hist time : loc)
    (steps n : nat) (X : loc) : M unit :=
  match steps with
  | O => mret tt
  | S steps' =>
      x ← load X;
      x' ← lift (time_stepping rhs dt x param);
      X' ← alloc (Vec x');
      assign_row hist (n + 1) X';;
      assign_item time (n + 1) (dt * np.float_of_nat (n + 1))%float;;
      call_loop dt param hist time steps' (n + 1) X'
  end.

Definition call (X0 : loc) (dt : float) (nt : nat) (param : P)
    : M (loc * loc) :=
  time ← alloc (Vec (np.time_axis dt (nt + 1)));
  x0 ← load X0;
  hist ← alloc (Mat (length x0) (np.nan_matrix (nt + 1) (length x0)));
  X ← alloc (Vec x0);
  assign_row hist 0 X;;
  call_loop dt param hist time nt 0 X;;
  mret (hist, time).
End Call.

(** The two arrays a run returns, read from the store it leaves. *)
Definition returned (r : option ((loc * loc) * store))
    : option (ndarray2 * ndarray) :=
  match r with
  | Some ((hist, time), s) =>
      match s !! hist, s !! time with
      | Some (Mat _ rows), Some (Vec t) => Some (rows, t)
      | _, _ => None
      end
  | None => None
  end.

(** [s'] is [s] up to assignments to the arrays at [hist] and [time]
    and up to the allocation of new arrays. *)
Definition only_assigns (hist time : loc) (s s' : store) : Prop :=
  forall (l : loc) (o : object),
    l <> hist -> l <> time -> s !! l = Some o -> s' !! l = Some o.

(** The state of a loop: the two result arrays and the current state
    array, with their values. *)
Record loop_state (s : store) (hist time X : loc)
    (K : nat) (h : ndarray2) (t x : ndarray) : Prop := {
  ls_distinct : hist <> time;
  ls_hist : s !! hist = Some (Mat K h);
  ls_time : s !! time = Some (Vec t);
  ls_X : s !! X = Some (Vec x)
}.

(** What a loop entered in [s] leaves when the function on values
    returns [r]. *)
Definition loop_result (s : store) (hist time : loc) (K : nat)
    (r : option (ndarray2 * ndarray)) (out : option (unit * store))
    : Prop :=
  match r with
  | Some (h', t') =>
      exists s', out = Some (tt, s') /\ only_assigns hist time s s'
                 /\ s' !! hist = Some (Mat K h')
                 /\ s' !! time = Some (Vec t')
  | None => out = None
  end.

(** What a run leaves when the function on values returns [r]: the two
    result arrays are new, and every object of the caller's store is
    as it was. *)
Definition run_result (s : store) (K : nat)
    (r : option (ndarray2 * ndarray))
    (out : option ((loc * loc) * store)) : Prop :=
  match r with
  | Some (h, t) =>
      exists s',
        out = Some ((length s + 1, length s), s')
        /\ (forall l o, s !! l = Some o -> s' !! l = Some o)
        /\ s' !! (length s + 1) = Some (Mat K h)
        /\ s' !! length s = Some (Vec t)
  | None => out = None
  end.

End Store.

(** ** Concrete runs *)

Module Examples.

(** The driver of the notebook, [GCM_without_parameterization(forcing)],
    at two values of the forcing. *)
Definition gcm_no_param : GCM_without_parameterization.t (list float) :=
  {| GCM_without_parameterization.F := 18%float;
     GCM_without_parameterization.time_stepping := RK4 |}.

Definition gcm_strong_forcing : GCM_without_parameterization.t (list float) :=
  {| GCM_without_parameterization.F := 1500%float;
     GCM_without_parameterization.time_stepping := RK4 |}.

(** A network in the shape of [LinearRegression]: one input, one
    output, [w * x + b] on every sample of the batch. *)
Definition linear_network (w b : float) : network :=
  {| in_features := 1;
     forward := fun batch =>
       Some (map (map (fun x => (w * x + b)%float)) batch) |}.

(** A network with four inputs that returns one number for the whole
    state. *)
Definition scalar_network : network :=
  {| in_features := 4;
     forward := fun batch => Some (map (fun _ => [1%float]) batch) |}.

Definition gcm_linear_net : GCM_network.t network :=
  {| GCM_network.F := 18%float;
     GCM_network.net := linear_network 0.5 1;
     GCM_network.time_stepping := RK4 |}.


Definition X_init : ndarray := [1; 2; 3; 4]%float.
Definition X_rest : ndarray := [0; 0; 0; 0]%float.

(** A caller's store: the initial condition at location 0, the list
    [param] at location 1. *)
Definition caller_store : Store.store :=
  [Store.Vec X_rest; Store.Vec default_param].

(** Another store: other objects, the same values of the initial
    condition (location 2) and of [param] (location 0). *)
Definition other_store : Store.store :=
  [Store.Vec default_param; Store.Mat 1 [[7%float]]; Store.Vec X_rest].

End Examples.

(** ** Further concrete runs *)

Module Runs.

(** [GCM_without_parameterization(forcing, time_stepping=EulerFwd)]. *)
Definition gcm_euler : GCM_without_parameterization.t (list float) :=
  {| GCM_without_parameterization.F := 18%float;
     GCM_without_parameterization.time_stepping := EulerFwd |}.

(** A state with an infinite component, and one with a NaN. *)
Definition X_inf : ndarray := [infinity; 1; 2; 3]%float.
Definition X_nan : ndarray := [1; nan; 3; 4]%float.

(** The uniform state [X[k] = F] for [F = 18], [K = 8]. *)
Definition X_uniform : ndarray := replicate 8 18%float.

(** A step scheme that returns one number, and one that returns a state
    with a component too many. *)
Definition scheme_scalar : stepper (list float) :=
  fun _ _ _ _ => Some [7%float].
Definition scheme_longer : stepper (list float) :=
  fun _ _ X _ => Some (0%float :: X).

(** A step scheme that raises, and a network that raises. *)
Definition scheme_raises : stepper (list float) :=
  fun _ _ _ _ => None.
Definition network_raises : network :=
  {| in_features := 1; forward := fun _ => None |}.

Definition gcm_with (scheme : stepper (list float))
    : GCM_without_parameterization.t (list float) :=
  {| GCM_without_parameterization.F := 18%float;
     GCM_without_parameterization.time_stepping := scheme |}.

Definition gcm_net_raises : GCM_network.t network :=
  {| GCM_network.F := 18%float;
     GCM_network.net := network_raises;
     GCM_network.time_stepping := RK4 |}.

(** A step scheme that reads its extra argument: forward Euler that
    subtracts the polynomial closure [np.polyval(param, X)] itself. *)
Definition scheme_closure : stepper (list float) :=
  fun fn dt X p =>
    k1 ← fn X p;
    t ← np.subtract k1 (np.polyval p X);
    np.add X (np.scale dt t).

(** [GCM_network] with the linear network and a given step scheme. *)
Definition gcm_net_with (scheme : stepper (list float))
    : GCM_network.t (list float) :=
  {| GCM_network.F := 18%float;
     GCM_network.net := Examples.linear_network 0.5 1;
     GCM_network.time_stepping := scheme |}.

(** A state with a NaN and, away from it, a component beyond the
    threshold of the guard. *)
Definition X_nan_large : ndarray := [nan; 0; 0; 0; 0; 5000; 0; 0]%float.

End Runs.

(** * Properties *)

(** ** Shapes *)

Lemma length_L96_eq1_xdot (X : ndarray) (F : float) :
  length (L96_eq1_xdot X F) = length X.
Proof. unfold L96_eq1_xdot. by rewrite length_map, length_seq. Qed.

Lemma length_polyval (p : list float) (x : ndarray) :
  length (np.polyval p x) = length x.
Proof.
  unfold np.polyval.
  assert (H : length (map (fun _ : float => 0%float) x) = length x)
    by apply length_map.
  revert H. generalize (map (fun _ : float => 0%float) x).
  induction p as [|pv p IH]; intros y Hy; simpl; [done|].
  apply IH. rewrite length_map, length_zip_with. lia.
Qed.

Lemma length_scale (c : float) (a : ndarray) :
  length (np.scale c a) = length a.
Proof. apply length_map. Qed.

Lemma broadcast_same (op : float -> float -> float) (a b : ndarray) :
  length a = length b -> np.broadcast op a b = Some (zip_with op a b).
Proof. intros H. unfold np.broadcast. by rewrite decide_True. Qed.

Lemma stretch_same (K : nat) (X : ndarray) :
  length X = K -> np.stretch K X = Some X.
Proof. intros H. unfold np.stretch. by rewrite decide_True. Qed.

Lemma length_stretch (K : nat) (X row : ndarray) :
  np.stretch K X = Some row -> length row = K.
Proof.
  unfold np.stretch. case_decide as H; [by intros [= <-]|].
  destruct X as [|x [|? ?]]; try done.
  intros [= <-]. apply length_replicate.
Qed.

(** One iteration of [GCM] never raises in its arithmetic: the three
    arrays it combines have the length of [X]. *)
Lemma GCM_step_eq (F dt : float) (param : list float) (X : ndarray) :
  GCM_step F dt param X =
  Some (zip_with PrimFloat.add X
          (np.scale dt
             (zip_with PrimFloat.sub (L96_eq1_xdot X F)
                (np.polyval param X)))).
Proof.
  unfold GCM_step, np.subtract, np.add.
  rewrite broadcast_same
    by (by rewrite length_L96_eq1_xdot, length_polyval).
  simpl. rewrite broadcast_same; [done|].
  rewrite length_scale, length_zip_with, length_L96_eq1_xdot, length_polyval.
  lia.
Qed.

Lemma GCM_step_length (F dt : float) (param : list float) (X X' : ndarray) :
  GCM_step F dt param X = Some X' -> length X' = length X.
Proof.
  rewrite GCM_step_eq. intros [= <-].
  rewrite length_zip_with, length_scale, length_zip_with,
    length_L96_eq1_xdot, length_polyval. lia.
Qed.

Lemma max_is_Some (a : ndarray) : a <> [] -> is_Some (np.max a).
Proof. destruct a; [done|]. by eexists. Qed.

Lemma max_abs_is_Some (X : ndarray) :
  X <> [] -> is_Some (np.max (np.abs X)).
Proof. intros H. apply max_is_Some. destruct X; [done|]. discriminate. Qed.

Lemma diverged_is_Some (X : ndarray) : X <> [] -> is_Some (diverged X).
Proof.
  intros H. unfold diverged.
  destruct (max_abs_is_Some X H) as [m ->]. by eexists.
Qed.

(** ** The loop of [GCM] in closed form *)

Lemma setrow_stretch (done rest : ndarray2) (r X row : ndarray) K n :
  length done = n -> np.stretch K X = Some row ->
  np.setrow (done ++ r :: rest) K n X = Some ((done ++ [row]) ++ rest).
Proof.
  intros Hn HX. unfold np.setrow.
  rewrite decide_True by (rewrite length_app; simpl; lia).
  rewrite HX. simpl.
  rewrite insert_app_r_alt by lia.
  replace (n - length done) with 0 by lia. simpl.
  by rewrite <- app_assoc.
Qed.

Lemma setrow_middle (done rest : ndarray2) (r X : ndarray) K n :
  length done = n -> length X = K ->
  np.setrow (done ++ r :: rest) K n X = Some ((done ++ [X]) ++ rest).
Proof.
  intros Hn HX. apply setrow_stretch; [done|]. by apply stretch_same.
Qed.

Lemma setitem_middle (done rest : ndarray) (t v : float) n :
  length done = n ->
  np.setitem (done ++ t :: rest) n v = Some ((done ++ [v]) ++ rest).
Proof.
  intros Hn. unfold np.setitem.
  rewrite decide_True by (rewrite length_app; simpl; lia).
  rewrite insert_app_r_alt by lia.
  replace (n - length done) with 0 by lia. simpl.
  by rewrite <- app_assoc.
Qed.

Lemma GCM_loop_eq (F dt : float) (param : list float) (K : nat) :
  forall (steps n : nat) (X : ndarray) (done rest : ndarray2)
         (tdone trest : ndarray),
    X <> [] -> length X = K ->
    length done = n -> length tdone = n ->
    length rest = steps -> length trest = steps ->
    GCM_loop F dt param K steps n X (done ++ rest) (tdone ++ trest) =
    Some (done ++ GCM_states F dt param steps X
            ++ drop (length (GCM_states F dt param steps X)) rest,
          tdone
            ++ map (stamp dt) (seq n (length (GCM_states F dt param steps X)))
            ++ drop (length (GCM_states F dt param steps X)) trest).
Proof.
  induction steps as [|steps IH];
    intros n X done rest tdone trest HX HK Hd Htd Hr Htr.
  - done.
  - destruct rest as [|r rest]; [done|].
    destruct trest as [|t trest]; [done|].
    simpl in Hr, Htr. simpl.
    destruct (GCM_step F dt param X) as [X'|] eqn:HX';
      [|by rewrite GCM_step_eq in HX'].
    pose proof (GCM_step_length _ _ _ _ _ HX') as HL. simpl.
    assert (HX'ne : X' <> []) by (destruct X', X; done).
    destruct (diverged_is_Some X' HX'ne) as [stop Hstop].
    rewrite Hstop. simpl.
    destruct stop; [done|].
    rewrite setrow_middle by congruence. simpl.
    rewrite (setitem_middle tdone trest t _ n Htd). simpl.
    rewrite IH; try done; try congruence;
      try (rewrite length_app; simpl; lia).
    simpl. rewrite <- !app_assoc. simpl.
    by replace (S n) with (n + 1) by lia.
Qed.

Lemma map_fmap {A B} (f : A -> B) (l : list A) : map f l = f <$> l.
Proof. induction l as [|a l IH]; [done|]. csimpl. by rewrite <- IH. Qed.

Lemma GCM_states_length (F dt : float) (param : list float) :
  forall (steps : nat) (X : ndarray),
    length (GCM_states F dt param steps X) <= steps.
Proof.
  induction steps as [|steps IH]; intros X; simpl; [lia|].
  destruct (GCM_step F dt param X) as [X'|]; simpl; [|lia].
  destruct (diverged X') as [[|]|]; simpl; try lia.
  specialize (IH X'). lia.
Qed.

(** [GCM] in closed form, for a state with at least one component. *)
Lemma GCM_eq (X0 : ndarray) (F dt : float) (nt : nat) (param : list float) :
  X0 <> [] ->
  GCM X0 F dt nt param =
  Some (GCM_result dt nt (length X0) (GCM_states F dt param nt X0)).
Proof.
  intros HX. unfold GCM, GCM_result.
  pose proof (GCM_loop_eq F dt param (length X0) nt 0 X0 []
                (np.nan_matrix nt (length X0)) [] (np.time_axis dt nt)
                HX eq_refl eq_refl eq_refl) as H.
  simpl in H. rewrite H.
  - unfold np.nan_matrix, np.time_axis.
    by rewrite drop_replicate, skipn_map, skipn_seq.
  - apply length_replicate.
  - unfold np.time_axis. by rewrite length_map, length_seq.
Qed.

(** With no component the reduction [max] raises in the first iteration;
    with no iteration the empty arrays are returned. *)
Lemma GCM_empty (F dt : float) (nt : nat) (param : list float) :
  GCM [] F dt nt param = match nt with O => Some ([], []) | S _ => None end.
Proof.
  destruct nt; [reflexivity|].
  unfold GCM. simpl. by rewrite GCM_step_eq.
Qed.


(** ** The loop of [__call__] in closed form *)

Section CallProperties.
Context {P : Type}.
Variable time_stepping : stepper P.
Variable rhs : @tendency P.

Lemma call_rows_length (dt : float) (param : P) (K : nat) :
  forall (steps : nat) (X : ndarray) (rows : list ndarray),
    call_rows time_stepping rhs dt param K steps X = Some rows ->
    length rows = steps.
Proof.
  induction steps as [|steps IH]; intros X rows; simpl.
  - by intros [= <-].
  - destruct (time_stepping rhs dt X param) as [X'|]; [simpl|done].
    destruct (np.stretch K X') as [row|]; [simpl|done].
    destruct (call_rows _ _ _ _ _ steps X') as [rows'|] eqn:E;
      [simpl|done].
    intros [= <-]. simpl. f_equal. by eapply IH.
Qed.

Lemma call_loop_eq (dt : float) (param : P) (K : nat) :
  forall (steps n : nat) (X : ndarray) (done rest : ndarray2)
         (tdone trest : ndarray),
    length done = n + 1 -> length tdone = n + 1 ->
    length rest = steps -> length trest = steps ->
    call_loop time_stepping rhs dt param K steps n X
      (done ++ rest) (tdone ++ trest) =
    (rows ← call_rows time_stepping rhs dt param K steps X;
     Some (done ++ rows, tdone ++ map (stamp dt) (seq n steps))).
Proof.
  induction steps as [|steps IH];
    intros n X done rest tdone trest Hd Htd Hr Htr.
  - destruct rest, trest; try done; simpl; by rewrite ?app_nil_r.
  - destruct rest as [|r rest]; [done|].
    destruct trest as [|t trest]; [done|].
    simpl in Hr, Htr. simpl.
    destruct (time_stepping rhs dt X param) as [X'|]; [simpl|done].
    destruct (np.stretch K X') as [row|] eqn:Hrow; simpl.
    + rewrite (setrow_stretch done rest r X' row K (n + 1) Hd Hrow). simpl.
      rewrite (setitem_middle tdone trest t _ (n + 1) Htd). simpl.
      rewrite IH; try (rewrite length_app; simpl; lia); try lia.
      destruct (call_rows _ _ _ _ _ steps X') as [rows|]; [simpl|done].
      rewrite <- !app_assoc. simpl.
      by replace (S n) with (n + 1) by lia.
    + unfold np.setrow. rewrite Hrow.
      by case_decide.
Qed.

(** [__call__] in closed form: the initial condition, then the rows of
    the loop; the time axis is [dt * np.arange(nt + 1)], whose entries
    the loop overwrites with the values they already have. *)
Lemma call_eq (X0 : ndarray) (dt : float) (nt : nat) (param : P) :
  call time_stepping rhs X0 dt nt param =
  (rows ← call_rows time_stepping rhs dt param (length X0) nt X0;
   Some (X0 :: rows, np.time_axis dt (nt + 1))).
Proof.
  unfold call.
  replace (nt + 1) with (S nt) by lia.
  unfold np.nan_matrix at 1. simpl replicate.
  pose proof (setrow_middle [] (replicate nt (np.nan_row (length X0)))
                (np.nan_row (length X0)) X0 (length X0) 0 eq_refl eq_refl)
    as H0.
  simpl in H0. rewrite H0; clear H0. simpl.
  unfold np.time_axis. simpl.
  pose proof (call_loop_eq dt param (length X0) nt 0 X0 [X0]
                (replicate nt (np.nan_row (length X0)))
                [(dt * np.float_of_nat 0)%float]
                (map (fun i => (dt * np.float_of_nat i)%float) (seq 1 nt)))
    as H.
  simpl in H. rewrite H; clear H;
    try done; try apply length_replicate;
    try (by rewrite length_map, length_seq).
  destruct (call_rows _ _ _ _ _ nt X0) as [rows|]; [simpl|done].
  do 3 f_equal.
  rewrite <- seq_shift, map_map. apply map_ext.
  intros i. unfold stamp. by replace (i + 1) with (S i) by lia.
Qed.

End CallProperties.

(** ** The store programs compute the functions on values *)

Section StoreProperties.

Lemma bind_eq {A B} (c : Store.M A) (k : A -> Store.M B)
    (s : Store.store) :
  (c ≫= k) s = match c s with Some (a, s') => k a s' | None => None end.
Proof. reflexivity. Qed.

Lemma load_eq (l : Store.loc) (a : ndarray) (s : Store.store) :
  s !! l = Some (Store.Vec a) -> Store.load l s = Some (a, s).
Proof. intros H. unfold Store.load. by rewrite H. Qed.

Lemma only_assigns_refl (hist time : Store.loc) (s : Store.store) :
  Store.only_assigns hist time s s.
Proof. by intros l o _ _ H. Qed.

Lemma only_assigns_trans (hist time : Store.loc)
    (s1 s2 s3 : Store.store) :
  Store.only_assigns hist time s1 s2 ->
  Store.only_assigns hist time s2 s3 ->
  Store.only_assigns hist time s1 s3.
Proof. intros H12 H23 l o Hh Ht H. by apply H23, H12. Qed.

Lemma only_assigns_alloc (hist time : Store.loc) (s : Store.store)
    (o : Store.object) :
  Store.only_assigns hist time s (s ++ [o]).
Proof. intros l o' _ _ H. by apply lookup_app_l_Some. Qed.

Lemma only_assigns_hist (hist time : Store.loc) (s : Store.store)
    (o : Store.object) :
  Store.only_assigns hist time s (<[hist := o]> s).
Proof. intros l o' Hh _ H. by rewrite list_lookup_insert_ne. Qed.

Lemma only_assigns_time (hist time : Store.loc) (s : Store.store)
    (o : Store.object) :
  Store.only_assigns hist time s (<[time := o]> s).
Proof. intros l o' _ Ht H. by rewrite list_lookup_insert_ne. Qed.

(** One row and one time entry are assigned, with a new array at the
    end of the store holding the new state. *)
Lemma assign_step (s : Store.store) (hist time X : Store.loc) (K n : nat)
    (h h' : ndarray2) (t t' x x' : ndarray) (v : float) :
  Store.loop_state s hist time X K h t x ->
  np.setrow h K n x' = Some h' ->
  np.setitem t n v = Some t' ->
  exists s', Store.loop_state s' hist time (length s) K h' t' x' /\
             Store.only_assigns hist time s s' /\
             forall B (k : Store.M B),
               (Store.assign_row hist n (length s);;
                Store.assign_item time n v;; k)
                 (s ++ [Store.Vec x']) = k s'.
Proof.
  intros [Hd Hlh Hlt HlX] Hrow Hitem.
  pose proof (lookup_lt_Some _ _ _ Hlh) as Hhl.
  pose proof (lookup_lt_Some _ _ _ Hlt) as Htl.
  exists (<[time := Store.Vec t']>
            (<[hist := Store.Mat K h']> (s ++ [Store.Vec x']))).
  split; [|split].
  - split; try done.
    + rewrite list_lookup_insert_ne by done.
      apply list_lookup_insert_eq. rewrite length_app. lia.
    + apply list_lookup_insert_eq.
      rewrite length_insert, length_app. lia.
    + rewrite !list_lookup_insert_ne by lia.
      by apply list_lookup_middle.
  - eapply only_assigns_trans; [apply only_assigns_alloc|].
    eapply only_assigns_trans;
      [apply only_assigns_hist|apply only_assigns_time].
  - intros B k. rewrite bind_eq. unfold Store.assign_row.
    rewrite (lookup_app_l_Some _ _ _ _ Hlh).
    rewrite list_lookup_middle by done.
    rewrite Hrow. rewrite bind_eq. unfold Store.assign_item.
    rewrite list_lookup_insert_ne by done.
    rewrite (lookup_app_l_Some _ _ _ _ Hlt).
    by rewrite Hitem.
Qed.

Lemma assign_step_fails (s : Store.store) (hist time X : Store.loc)
    (K n : nat) (h : ndarray2) (t x x' : ndarray) (v : float)
    {B} (k : Store.M B) :
  Store.loop_state s hist time X K h t x ->
  np.setrow h K n x' = None \/ np.setitem t n v = None ->
  (Store.assign_row hist n (length s);; Store.assign_item time n v;; k)
    (s ++ [Store.Vec x']) = None.
Proof.
  intros [Hd Hlh Hlt HlX] Hfail.
  rewrite bind_eq. unfold Store.assign_row.
  rewrite (lookup_app_l_Some _ _ _ _ Hlh).
  rewrite list_lookup_middle by done.
  destruct (np.setrow h K n x') as [h'|]; [|done].
  destruct Hfail as [|Hitem]; [done|].
  rewrite bind_eq. unfold Store.assign_item.
  rewrite list_lookup_insert_ne by done.
  rewrite (lookup_app_l_Some _ _ _ _ Hlt).
  by rewrite Hitem.
Qed.

Lemma loop_state_alloc (s : Store.store) (hist time X : Store.loc)
    (K : nat) (h : ndarray2) (t x x' : ndarray) :
  Store.loop_state s hist time X K h t x ->
  Store.loop_state (s ++ [Store.Vec x']) hist time (length s) K h t x'.
Proof.
  intros [Hd Hlh Hlt HlX]. split; try done.
  - by apply lookup_app_l_Some.
  - by apply lookup_app_l_Some.
  - by apply list_lookup_middle.
Qed.

Lemma loop_result_here (s1 s : Store.store) (hist time X : Store.loc)
    (K : nat) (h : ndarray2) (t x : ndarray) :
  Store.only_assigns hist time s1 s ->
  Store.loop_state s hist time X K h t x ->
  Store.loop_result s1 hist time K (Some (h, t)) (Some (tt, s)).
Proof. intros H1 [Hd Hlh Hlt HlX]. by exists s. Qed.

Lemma loop_result_from (s1 s : Store.store) (hist time : Store.loc)
    (K : nat) r out :
  Store.only_assigns hist time s1 s ->
  Store.loop_result s hist time K r out ->
  Store.loop_result s1 hist time K r out.
Proof.
  intros H1. destruct r as [[h t]|]; [|done].
  intros (s' & -> & H2 & Hh & Ht). exists s'.
  split; [done|]. split; [|done]. by eapply only_assigns_trans.
Qed.

Lemma GCM_loop_refines (F dt : float) (param : Store.loc)
    (p : list float) (hist time : Store.loc) (K : nat) :
  param <> time ->
  forall (steps n : nat) (s : Store.store) (X : Store.loc)
         (h : ndarray2) (t x : ndarray),
    s !! param = Some (Store.Vec p) ->
    Store.loop_state s hist time X K h t x ->
    Store.loop_result s hist time K
      (GCM_loop F dt p K steps n x h t)
      (Store.GCM_loop F dt param hist time steps n X s).
Proof.
  intros Hpt.
  induction steps as [|steps IH]; intros n s X h t x Hparam Hst.
  - eapply loop_result_here; [apply only_assigns_refl|done].
  - assert (param <> hist) as Hph.
    { intros ->. destruct Hst. congruence. }
    simpl. rewrite bind_eq, (load_eq X x) by apply Hst.
    rewrite bind_eq, (load_eq param p) by done.
    rewrite bind_eq.
    destruct (GCM_step F dt p x) as [x'|]; [simpl|done].
    rewrite bind_eq. simpl. rewrite bind_eq.
    destruct (diverged x') as [[|]|]; simpl; [| |done].
    + eapply loop_result_here; [apply only_assigns_alloc|].
      by eapply loop_state_alloc.
    + destruct (np.setrow h K n x') as [h'|] eqn:Hrow; simpl;
        [|by erewrite assign_step_fails; eauto].
      destruct (np.setitem t n _) as [t'|] eqn:Hitem; simpl;
        [|by erewrite assign_step_fails; eauto].
      destruct (assign_step _ _ _ _ _ _ _ _ _ _ _ x' _ Hst Hrow Hitem)
        as (s' & Hst' & Hs' & ->).
      eapply loop_result_from; [done|].
      apply IH; [|done]. by apply Hs'.
Qed.

Lemma loop_state_init (s : Store.store) (x0 t : ndarray) (h : ndarray2)
    (K : nat) :
  Store.loop_state (((s ++ [Store.Vec t]) ++ [Store.Mat K h])
                      ++ [Store.Vec x0])
    (length s + 1) (length s) (length s + 2) K h t x0.
Proof.
  split; try lia.
  - apply lookup_app_l_Some, list_lookup_middle.
    rewrite length_app. simpl. lia.
  - do 2 apply lookup_app_l_Some. by apply list_lookup_middle.
  - apply list_lookup_middle. rewrite !length_app. simpl. lia.
Qed.

Lemma run_result_of_loop (s s3 : Store.store) (K : nat) r out :
  (forall l o, s !! l = Some o -> s3 !! l = Some o) ->
  Store.loop_result s3 (length s + 1) (length s) K r out ->
  Store.run_result s K r
    (match out with
     | Some (_, s') => Some ((length s + 1, length s), s')
     | None => None
     end).
Proof.
  intros H3. destruct r as [[h t]|]; simpl; [|by intros ->].
  intros (s' & -> & Hs' & Hh & Ht). exists s'.
  split; [done|]. split; [|done].
  intros l o Hl. pose proof (lookup_lt_Some _ _ _ Hl).
  apply Hs'; [lia|lia|]. by apply H3.
Qed.

Lemma init_preserves (s : Store.store) (o1 o2 o3 : Store.object) :
  forall l o, s !! l = Some o -> (((s ++ [o1]) ++ [o2]) ++ [o3]) !! l = Some o.
Proof. intros l o H. by do 3 apply lookup_app_l_Some. Qed.

(** [GCM] on the store computes [GCM] on the values of its arguments. *)
Lemma GCM_refines (s : Store.store) (X0 param : Store.loc)
    (x0 : ndarray) (p : list float) (F dt : float) (nt : nat) :
  s !! X0 = Some (Store.Vec x0) ->
  s !! param = Some (Store.Vec p) ->
  Store.run_result s (length x0) (GCM x0 F dt nt p)
    (Store.GCM X0 F dt nt param s).
Proof.
  intros HX0 Hparam.
  pose proof (loop_state_init s x0 (np.time_axis dt nt)
                (np.nan_matrix nt (length x0)) (length x0)) as Hst.
  assert (param <> length s) as Hpt
    by (pose proof (lookup_lt_Some _ _ _ Hparam); lia).
  pose proof (GCM_loop_refines F dt param p (length s + 1) (length s)
                (length x0) Hpt nt 0 _ _ _ _ _
                (init_preserves s _ _ _ _ _ Hparam) Hst) as Hloop.
  assert (Store.GCM X0 F dt nt param s =
          match Store.GCM_loop F dt param (length s + 1) (length s) nt 0
                  (length s + 2)
                  (((s ++ [Store.Vec (np.time_axis dt nt)])
                      ++ [Store.Mat (length x0)
                            (np.nan_matrix nt (length x0))])
                     ++ [Store.Vec x0]) with
          | Some (_, s') => Some ((length s + 1, length s), s')
          | None => None
          end) as ->.
  { unfold Store.GCM.
    rewrite bind_eq. unfold Store.alloc at 1.
    rewrite bind_eq, (load_eq X0 x0) by by apply lookup_app_l_Some.
    rewrite bind_eq. unfold Store.alloc at 1.
    rewrite bind_eq. unfold Store.alloc at 1.
    rewrite bind_eq.
    rewrite !length_app. simpl length.
    by replace (length s + 1 + 1) with (length s + 2) by lia. }
  eapply run_result_of_loop; [apply init_preserves|apply Hloop].
Qed.

Section CallRefines.
Context {P : Type}.
Variable time_stepping : stepper P.
Variable rhs : @tendency P.

Lemma call_loop_refines (dt : float) (param : P)
    (hist time : Store.loc) (K : nat) :
  forall (steps n : nat) (s : Store.store) (X : Store.loc)
         (h : ndarray2) (t x : ndarray),
    Store.loop_state s hist time X K h t x ->
    Store.loop_result s hist time K
      (call_loop time_stepping rhs dt param K steps n x h t)
      (Store.call_loop time_stepping rhs dt param hist time steps n X s).
Proof.
  induction steps as [|steps IH]; intros n s X h t x Hst.
  - eapply loop_result_here; [apply only_assigns_refl|done].
  - simpl. rewrite bind_eq, (load_eq X x) by apply Hst.
    rewrite bind_eq.
    destruct (time_stepping rhs dt x param) as [x'|]; [simpl|done].
    rewrite bind_eq. simpl.
    destruct (np.setrow h K (n + 1) x') as [h'|] eqn:Hrow; simpl;
      [|by erewrite assign_step_fails; eauto].
    destruct (np.setitem t (n + 1) _) as [t'|] eqn:Hitem; simpl;
      [|by erewrite assign_step_fails; eauto].
    destruct (assign_step _ _ _ _ _ _ _ _ _ _ _ x' _ Hst Hrow Hitem)
      as (s' & Hst' & Hs' & ->).
    eapply loop_result_from; [done|]. by apply IH.
Qed.

Lemma assign_row_state (s : Store.store) (hist time X : Store.loc)
    (K n : nat) (h : ndarray2) (t x : ndarray) :
  Store.loop_state s hist time X K h t x ->
  match np.setrow h K n x with
  | Some h' =>
      exists s', Store.assign_row hist n X s = Some (tt, s')
                 /\ Store.only_assigns hist time s s'
                 /\ Store.loop_state s' hist time X K h' t x
  | None => Store.assign_row hist n X s = None
  end.
Proof.
  intros [Hd Hlh Hlt HlX].
  unfold Store.assign_row. rewrite Hlh, HlX.
  destruct (np.setrow h K n x) as [h'|]; [|done].
  eexists. split; [done|].
  assert (hist <> X) by (intros ->; congruence).
  pose proof (lookup_lt_Some _ _ _ Hlh).
  split; [apply only_assigns_hist|].
  split; try done.
  - by apply list_lookup_insert_eq.
  - by rewrite list_lookup_insert_ne.
  - by rewrite list_lookup_insert_ne.
Qed.

(** [__call__] on the store computes [call] on the values. *)
Lemma call_refines (s : Store.store) (X0 : Store.loc) (x0 : ndarray)
    (dt : float) (nt : nat) (param : P) :
  s !! X0 = Some (Store.Vec x0) ->
  Store.run_result s (length x0) (call time_stepping rhs x0 dt nt param)
    (Store.call time_stepping rhs X0 dt nt param s).
Proof.
  intros HX0.
  pose proof (loop_state_init s x0 (np.time_axis dt (nt + 1))
                (np.nan_matrix (nt + 1) (length x0)) (length x0)) as Hst.
  apply (assign_row_state _ _ _ _ _ 0) in Hst.
  assert (Store.call time_stepping rhs X0 dt nt param s =
          match Store.assign_row (length s + 1) 0 (length s + 2)
                  (((s ++ [Store.Vec (np.time_axis dt (nt + 1))])
                      ++ [Store.Mat (length x0)
                            (np.nan_matrix (nt + 1) (length x0))])
                     ++ [Store.Vec x0]) with
          | Some (_, s1) =>
              match Store.call_loop time_stepping rhs dt param
                      (length s + 1) (length s) nt 0 (length s + 2) s1
              with
              | Some (_, s') => Some ((length s + 1, length s), s')
              | None => None
              end
          | None => None
          end) as ->.
  { unfold Store.call.
    rewrite bind_eq. unfold Store.alloc at 1.
    rewrite bind_eq, (load_eq X0 x0) by by apply lookup_app_l_Some.
    rewrite bind_eq. unfold Store.alloc at 1.
    rewrite bind_eq. unfold Store.alloc at 1.
    rewrite bind_eq.
    rewrite !length_app. simpl length.
    replace (length s + 1 + 1) with (length s + 2) by lia.
    destruct (Store.assign_row _ _ _ _) as [[[] s1]|]; [|done].
    by rewrite bind_eq. }
  unfold call.
  destruct (np.setrow _ (length x0) 0 x0) as [h0|]; simpl;
    [|by rewrite Hst].
  destruct Hst as (s1 & -> & Hs1 & Hst).
  pose proof (call_loop_refines dt param (length s + 1) (length s)
                (length x0) nt 0 _ _ _ _ _ Hst) as Hloop.
  eapply run_result_of_loop; [apply init_preserves|].
  eapply loop_result_from; [apply Hs1|apply Hloop].
Qed.
End CallRefines.

End StoreProperties.

(** ** What the store programs return *)

Lemma returned_run (s : Store.store) (K : nat) r out :
  Store.run_result s K r out -> Store.returned out = r.
Proof.
  destruct r as [[h t]|]; simpl; [|by intros ->].
  intros (s' & -> & _ & Hh & Ht). simpl. by rewrite Hh, Ht.
Qed.

Lemma run_preserves (s s' : Store.store) (K : nat) r out res :
  Store.run_result s K r out -> out = Some (res, s') ->
  forall l o, s !! l = Some o -> s' !! l = Some o.
Proof.
  destruct r as [[h t]|]; simpl; [|by intros -> ?].
  intros (s1 & -> & Hs & _) [= _ <-]. exact Hs.
Qed.

(** ** The stored states are the iterates of the update *)

Lemma GCM_states_lookup (F dt : float) (param : list float) :
  forall (steps : nat) (X : ndarray) (i : nat) (Xi : ndarray),
    GCM_states F dt param steps X !! i = Some Xi ->
    GCM_iter F dt param (S i) X = Some Xi /\ diverged Xi = Some false.
Proof.
  induction steps as [|steps IH]; intros X i Xi; simpl; [done|].
  destruct (GCM_step F dt param X) as [X'|] eqn:HX'; simpl; [|done].
  destruct (diverged X') as [[|]|] eqn:Hd; try done.
  destruct i as [|i]; simpl.
  - by intros [= <-].
  - intros H. by apply IH in H.
Qed.

Lemma GCM_states_stop (F dt : float) (param : list float) :
  forall (steps : nat) (X : ndarray),
    X <> [] ->
    length (GCM_states F dt param steps X) < steps ->
    exists X', GCM_iter F dt param
                 (S (length (GCM_states F dt param steps X))) X = Some X'
               /\ diverged X' = Some true.
Proof.
  induction steps as [|steps IH]; intros X HX; simpl; [lia|].
  destruct (GCM_step F dt param X) as [X'|] eqn:HX'; simpl;
    [|by rewrite GCM_step_eq in HX'].
  assert (HX'ne : X' <> []).
  { pose proof (GCM_step_length _ _ _ _ _ HX'). destruct X', X; done. }
  destruct (diverged_is_Some X' HX'ne) as [[|] Hd]; rewrite Hd; simpl.
  - intros _. by exists X'.
  - intros Hlt. destruct (IH X' HX'ne) as (X'' & Hit & Hd''); [lia|].
    simpl in Hit. by exists X''.
Qed.

Section CallStates.
Context {P : Type}.
Variable time_stepping : stepper P.
Variable rhs : @tendency P.

Lemma call_rows_lookup (dt : float) (param : P) (K : nat) :
  forall (steps : nat) (X : ndarray) (rows : list ndarray),
    call_rows time_stepping rhs dt param K steps X = Some rows ->
    forall i, i < steps ->
      exists Xi row, call_iter time_stepping rhs dt param (S i) X = Some Xi
                     /\ np.stretch K Xi = Some row
                     /\ rows !! i = Some row.
Proof.
  induction steps as [|steps IH]; intros X rows; simpl; [lia|].
  destruct (time_stepping rhs dt X param) as [X'|]; [simpl|done].
  destruct (np.stretch K X') as [row|] eqn:Hrow; [simpl|done].
  destruct (call_rows _ _ _ _ _ steps X') as [rows'|] eqn:E;
    [simpl|done].
  intros [= <-] [|i] Hi.
  - by exists X', row.
  - destruct (IH X' rows' E i) as (Xi & r & H1 & H2 & H3); [lia|].
    by exists Xi, r.
Qed.


End CallStates.

(** ** The step schemes *)

Lemma length_add (a b c : ndarray) :
  length a = length b -> np.add a b = Some c -> length c = length a.
Proof.
  intros H. unfold np.add. rewrite broadcast_same by done.
  intros [= <-]. rewrite length_zip_with. lia.
Qed.

Lemma add_same_is_Some (a b : ndarray) :
  length a = length b ->
  exists c, np.add a b = Some c /\ length c = length a.
Proof.
  intros H. unfold np.add. rewrite broadcast_same by done.
  eexists. split; [done|]. rewrite length_zip_with. lia.
Qed.

Lemma EulerFwd_forwards {P : Type} : forwards_params (@EulerFwd P).
Proof. intros fn dt X p1 p2 H. unfold EulerFwd. by rewrite H. Qed.

Lemma RK4_forwards {P : Type} : forwards_params (@RK4 P).
Proof.
  intros fn dt X p1 p2 H. unfold RK4. rewrite H.
  destruct (fn X p2) as [k1|]; [simpl|done].
  destruct (np.add X _) as [X2|]; [simpl|done]. rewrite H.
  destruct (fn X2 p2) as [k2|]; [simpl|done].
  destruct (np.add X _) as [X3|]; [simpl|done]. rewrite H.
  destruct (fn X3 p2) as [k3|]; [simpl|done].
  destruct (np.add X _) as [X4|]; [simpl|done]. by rewrite H.
Qed.

Lemma EulerFwd_keeps_length {P : Type} : keeps_length (@EulerFwd P).
Proof.
  intros fn dt p Hfn X. unfold EulerFwd.
  destruct (Hfn X) as (d & -> & Hd). simpl.
  apply add_same_is_Some. by rewrite length_scale.
Qed.


(** * The claims *)

Section CallShape.
Context {P : Type}.
Variable time_stepping : stepper P.
Variable rhs : @tendency P.

Lemma call_shape (X0 : ndarray) (dt : float) (nt : nat) (param : P)
    (hist : ndarray2) (time : ndarray) :
  call time_stepping rhs X0 dt nt param = Some (hist, time) ->
  length hist = nt + 1 /\ hist !! 0 = Some X0
  /\ time = np.time_axis dt (nt + 1).
Proof.
  rewrite call_eq.
  destruct (call_rows _ _ _ _ _ nt X0) as [rows|] eqn:E; [simpl|done].
  intros [= <- <-]. apply call_rows_length in E.
  simpl. split; [lia|done].
Qed.


Lemma call_no_guard (X0 : ndarray) (dt : float) (nt : nat) (param : P)
    (hist : ndarray2) (time : ndarray) :
  call time_stepping rhs X0 dt nt param = Some (hist, time) ->
  forall i, i < nt ->
    exists Xi row,
      call_iter time_stepping rhs dt param (S i) X0 = Some Xi
      /\ np.stretch (length X0) Xi = Some row
      /\ hist !! (S i) = Some row.
Proof.
  rewrite call_eq.
  destruct (call_rows _ _ _ _ _ nt X0) as [rows|] eqn:E; [simpl|done].
  intros [= <- <-] i Hi.
  by apply (call_rows_lookup _ _ _ _ _ _ _ _ E).
Qed.

End CallShape.

Lemma GCM_inv (X0 : ndarray) (F dt : float) (nt : nat)
    (param : list float) (r : ndarray2 * ndarray) :
  GCM X0 F dt nt param = Some r ->
  r = GCM_result dt nt (length X0) (GCM_states F dt param nt X0).
Proof.
  destruct X0 as [|x X0].
  - rewrite GCM_empty. destruct nt; [|done]. by intros [= <-].
  - rewrite GCM_eq by done. by intros [= <-].
Qed.










(** What [GCM] returns, row by row: with [m] the number of states stored,
    the rows below [m] are the iterates of the update, none of which
    tripped the guard; the rows from [m] on are the NaN rows they were
    created as; and when [m < nt] the next iterate tripped the guard. *)
Lemma GCM_rows (X0 : ndarray) (F dt : float) (nt : nat)
    (param : list float) (hist : ndarray2) (time : ndarray) :
  GCM X0 F dt nt param = Some (hist, time) ->
  exists m, m <= nt
    /\ (forall i, i < m ->
          exists Xi, hist !! i = Some Xi
                     /\ GCM_iter F dt param (S i) X0 = Some Xi
                     /\ diverged Xi = Some false)
    /\ (forall i, m <= i < nt -> hist !! i = Some (np.nan_row (length X0)))
    /\ (m < nt ->
          exists X', GCM_iter F dt param (S m) X0 = Some X'
                     /\ diverged X' = Some true).
Proof.
  intros H. pose proof H as Hinv.
  apply GCM_inv in Hinv. unfold GCM_result in Hinv.
  injection Hinv as -> ->.
  pose proof (GCM_states_length F dt param nt X0) as Hle.
  exists (length (GCM_states F dt param nt X0)).
  split; [done|]. split; [|split].
  - intros i Hi.
    destruct (lookup_lt_is_Some_2 _ _ Hi) as [Xi HXi].
    exists Xi. split; [by apply lookup_app_l_Some|].
    by apply GCM_states_lookup in HXi.
  - intros i [Hi1 Hi2].
    rewrite lookup_app_r by done.
    apply lookup_replicate_2. lia.
  - intros Hlt. apply GCM_states_stop; [|done].
    intros ->. rewrite GCM_empty in H. destruct nt; [lia|done].
Qed.

(** C2, as amended.  [GCM] evaluates the guard after each update: the
    first state whose largest absolute component compares greater than
    1e3 ends the run, it is not stored, and every row from there on is
    the NaN row it was created as.  The two [__call__] methods evaluate
    no guard: every row is the state the step scheme returned, whatever
    its magnitude. *)
Theorem C2_divergence_guard :
  (forall (X0 : ndarray) (F dt : float) (nt : nat) (param : list float)
          (hist : ndarray2) (time : ndarray),
      GCM X0 F dt nt param = Some (hist, time) ->
      exists m, m <= nt
        /\ (forall i, i < m ->
              exists Xi, hist !! i = Some Xi
                         /\ GCM_iter F dt param (S i) X0 = Some Xi
                         /\ diverged Xi = Some false)
        /\ (forall i, m <= i < nt ->
              hist !! i = Some (replicate (length X0) np.nan))
        /\ (m < nt ->
              exists X', GCM_iter F dt param (S m) X0 = Some X'
                         /\ diverged X' = Some true))
  /\ (forall (P : Type) (self : GCM_without_parameterization.t P)
          (X0 : ndarray) (dt : float) (nt : nat) (param : P)
          (hist : ndarray2) (time : ndarray),
      GCM_without_parameterization.__call__ self X0 dt nt param
        = Some (hist, time) ->
      forall i, i < nt ->
        exists Xi row,
          call_iter (GCM_without_parameterization.time_stepping self)
            (GCM_without_parameterization.rhs self) dt param (S i) X0
            = Some Xi
          /\ np.stretch (length X0) Xi = Some row
          /\ hist !! (S i) = Some row)
  /\ (forall (P : Type) (self : GCM_network.t P)
          (X0 : ndarray) (dt : float) (nt : nat) (param : P)
          (hist : ndarray2) (time : ndarray),
      GCM_network.__call__ self X0 dt nt param = Some (hist, time) ->
      forall i, i < nt ->
        exists Xi row,
          call_iter (GCM_network.time_stepping self)
            (GCM_network.rhs self) dt param (S i) X0 = Some Xi
          /\ np.stretch (length X0) Xi = Some row
          /\ hist !! (S i) = Some row).
Proof.
  split; [|split].
  - intros X0 F dt nt param hist time H. by apply GCM_rows in H.
  - intros P self X0 dt nt param hist time H. by eapply call_no_guard.
  - intros P self X0 dt nt param hist time H. by eapply call_no_guard.
Qed.

Lemma C2_divergence_guard_witness :
  (exists hist time m,
      GCM Examples.X_rest 1500 0.5 3 default_param = Some (hist, time)
      /\ m <= 3
      /\ (forall i, m <= i < 3 ->
            hist !! i = Some (replicate (length Examples.X_rest) np.nan)))
  /\ (exists hist time Xi row,
      GCM_without_parameterization.__call__ Examples.gcm_strong_forcing
        Examples.X_rest 0.5%float 4 default_param = Some (hist, time)
      /\ call_iter
           (GCM_without_parameterization.time_stepping
              Examples.gcm_strong_forcing)
           (GCM_without_parameterization.rhs Examples.gcm_strong_forcing)
           0.5%float default_param 3 Examples.X_rest = Some Xi
      /\ np.stretch (length Examples.X_rest) Xi = Some row
      /\ hist !! 3 = Some row)
  /\ (exists hist time Xi row,
      GCM_network.__call__ Examples.gcm_linear_net
        Examples.X_init 0.125%float 2 (Examples.linear_network 0.5 1)
        = Some (hist, time)
      /\ call_iter (GCM_network.time_stepping Examples.gcm_linear_net)
           (GCM_network.rhs Examples.gcm_linear_net)
           0.125%float (Examples.linear_network 0.5 1) 1 Examples.X_init
         = Some Xi
      /\ np.stretch (length Examples.X_init) Xi = Some row
      /\ hist !! 1 = Some row).
Proof.
  destruct C2_divergence_guard as (H1 & H2 & H3).
  split; [|split].
  - destruct (GCM Examples.X_rest 1500 0.5 3 default_param)
      as [[hist time]|] eqn:E; [|vm_compute in E; discriminate E].
    destruct (H1 _ _ _ _ _ hist time E) as (m & Hm & _ & Hnan & _).
    exists hist, time, m. split; [reflexivity|]. split; [exact Hm|].
    exact Hnan.
  - destruct (GCM_without_parameterization.__call__
                Examples.gcm_strong_forcing Examples.X_rest 0.5%float 4
                default_param)
      as [[hist time]|] eqn:E; [|vm_compute in E; discriminate E].
    destruct (H2 _ _ _ _ _ _ hist time E 2 ltac:(lia))
      as (Xi & row & Hi & Hr & Hh).
    exists hist, time, Xi, row. split; [reflexivity|].
    split; [exact Hi|]. split; [exact Hr|exact Hh].
  - destruct (GCM_network.__call__ Examples.gcm_linear_net
                Examples.X_init 0.125%float 2
                (Examples.linear_network 0.5 1))
      as [[hist time]|] eqn:E; [|vm_compute in E; discriminate E].
    destruct (H3 _ _ _ _ _ _ hist time E 0 ltac:(lia))
      as (Xi & row & Hi & Hr & Hh).
    exists hist, time, Xi, row. split; [reflexivity|].
    split; [exact Hi|]. split; [exact Hr|exact Hh].
Defined.

Lemma C2_counterexample :
  exists hist time row3 row4,
    GCM_without_parameterization.__call__ Examples.gcm_strong_forcing
      Examples.X_rest 0.5%float 4 default_param = Some (hist, time)
    /\ hist !! 3 = Some row3 /\ diverged row3 = Some true
    /\ hist !! 4 = Some row4 /\ existsb is_nan row4 = false.
Proof.
  do 4 eexists. split; [vm_compute; reflexivity|].
  split; [vm_compute; reflexivity|].
  split; [vm_compute; reflexivity|].
  split; vm_compute; reflexivity.
Qed.




(** C6.  [GCM] at [X0 = [0, 0, 0, 0]], [F = 1500], [dt = 0.5], [nt = 3]:
    the second update trips the guard, and the time array returned is
    [[0.5, 0.5, 1.0]].  The entry of the stored row is [dt * 1]; the
    entries of the two rows left unset are the [dt * 1] and [dt * 2] of
    [dt * np.arange(nt)]: two consecutive entries are equal, and the
    entries of the unset rows are one step behind their index. *)
Theorem C6_GCM_time_after_break :
  GCM Examples.X_rest 1500 0.5 3 default_param
  = Some ([[750; 750; 750; 750];
           [np.nan; np.nan; np.nan; np.nan];
           [np.nan; np.nan; np.nan; np.nan]]%float,
          [0.5; 0.5; 1]%float).
Proof. vm_compute. reflexivity. Qed.

Section ParamIgnored.
Context {P : Type}.
Variable time_stepping : stepper P.
Variable rhs : @tendency P.
Hypothesis forwards : forwards_params time_stepping.
Hypothesis rhs_ignores : forall (X : ndarray) (p1 p2 : P), rhs X p1 = rhs X p2.

Lemma call_rows_param (dt : float) (p1 p2 : P) (K : nat) :
  forall (steps : nat) (X : ndarray),
    call_rows time_stepping rhs dt p1 K steps X
    = call_rows time_stepping rhs dt p2 K steps X.
Proof.
  induction steps as [|steps IH]; intros X; simpl; [done|].
  rewrite (forwards rhs dt X p1 p2) by (intros Y; apply rhs_ignores).
  destruct (time_stepping rhs dt X p2) as [X'|]; [simpl|done].
  by rewrite IH.
Qed.

Lemma call_param (X0 : ndarray) (dt : float) (nt : nat) (p1 p2 : P) :
  call time_stepping rhs X0 dt nt p1 = call time_stepping rhs X0 dt nt p2.
Proof. by rewrite !call_eq, (call_rows_param dt p1 p2). Qed.

End ParamIgnored.

(** C10, as amended.  The arrays [GCM_without_parameterization.__call__]
    returns do not depend on [param] when the step scheme uses its extra
    argument only by passing it on to the tendency function: [rhs]
    ignores it.  [RK4], the scheme the constructor takes by default, and
    [EulerFwd] are such schemes.  The scheme is an argument of the
    constructor, and one that reads the argument itself makes the result
    depend on [param]. *)
Theorem C10_param_ignored :
  (forall (P : Type) (self : GCM_without_parameterization.t P)
          (X0 : ndarray) (dt : float) (nt : nat) (p1 p2 : P),
      forwards_params (GCM_without_parameterization.time_stepping self) ->
      GCM_without_parameterization.__call__ self X0 dt nt p1
      = GCM_without_parameterization.__call__ self X0 dt nt p2)
  /\ (forall (P : Type) (self : GCM_without_parameterization.t P)
          (X0 : ndarray) (dt : float) (nt : nat) (p1 p2 : P),
      GCM_without_parameterization.time_stepping self = RK4
      \/ GCM_without_parameterization.time_stepping self = EulerFwd ->
      GCM_without_parameterization.__call__ self X0 dt nt p1
      = GCM_without_parameterization.__call__ self X0 dt nt p2).
Proof.
  split.
  - intros P self X0 dt nt p1 p2 Hf.
    unfold GCM_without_parameterization.__call__.
    by apply call_param.
  - intros P self X0 dt nt p1 p2 Hs.
    unfold GCM_without_parameterization.__call__.
    apply call_param; [|done].
    destruct Hs as [-> | ->]; [apply RK4_forwards|apply EulerFwd_forwards].
Qed.

Lemma C10_param_ignored_witness :
  (forwards_params
     (GCM_without_parameterization.time_stepping Examples.gcm_no_param)
   /\ GCM_without_parameterization.__call__ Examples.gcm_no_param
        Examples.X_init 0.125%float 2 [0%float]
      = GCM_without_parameterization.__call__ Examples.gcm_no_param
          Examples.X_init 0.125%float 2 [0.275; 1.59; -0.019]%float)
  /\ (GCM_without_parameterization.time_stepping Runs.gcm_euler = EulerFwd
      /\ GCM_without_parameterization.__call__ Runs.gcm_euler
           Examples.X_init 0.125%float 2 [0%float]
         = GCM_without_parameterization.__call__ Runs.gcm_euler
             Examples.X_init 0.125%float 2 [0.5; 1]%float)
  /\ is_Some (GCM_without_parameterization.__call__ Examples.gcm_no_param
                Examples.X_init 0.125%float 2 [0%float])
  /\ is_Some (GCM_without_parameterization.__call__ Runs.gcm_euler
                Examples.X_init 0.125%float 2 [0%float]).
Proof.
  destruct C10_param_ignored as (H1 & H2).
  split; [|split; [|split]].
  - split; [apply RK4_forwards|].
    apply (H1 _ Examples.gcm_no_param Examples.X_init
             0.125%float 2 [0%float] [0.275; 1.59; -0.019]%float).
    apply RK4_forwards.
  - split; [reflexivity|].
    apply (H2 _ Runs.gcm_euler Examples.X_init
             0.125%float 2 [0%float] [0.5; 1]%float).
    right. reflexivity.
  - vm_compute. by eexists.
  - vm_compute. by eexists.
Defined.

(** With a step scheme that reads its extra argument, two calls that
    differ in [param] alone return different histories. *)
Lemma C10_counterexample :
  exists h1 t1 h2 t2 r1 r2,
    GCM_without_parameterization.__call__
      (Runs.gcm_with Runs.scheme_closure)
      Examples.X_init 0.125%float 1 [0%float] = Some (h1, t1)
    /\ GCM_without_parameterization.__call__
         (Runs.gcm_with Runs.scheme_closure)
         Examples.X_init 0.125%float 1 [0.5; 1]%float = Some (h2, t2)
    /\ h1 !! 1 = Some r1 /\ h2 !! 1 = Some r2
    /\ r1 = [2.625; 3.875; 5.625; 5.375]%float
    /\ r2 = [2.4375; 3.625; 5.3125; 5]%float
    /\ h1 <> h2.
Proof.
  do 6 eexists.
  split; [vm_compute; reflexivity|].
  split; [vm_compute; reflexivity|].
  split; [reflexivity|]. split; [reflexivity|].
  split; [reflexivity|]. split; [reflexivity|].
  intros H. discriminate H.
Qed.

(** C7.  Two runs of a driver on equal values of the initial condition
    (and, for [GCM], of [param]), with the same forcing, step size, step
    count, step scheme and closure, return equal arrays, entry by entry
    as binary64 values: this holds between any two stores, whatever else
    they hold, and between a run and a second run in the store the first
    one left. *)
Theorem C7_reproducible :
  (forall (sa sb : Store.store) (X0a X0b pa pb : Store.loc)
          (x0 : ndarray) (p : list float) (F dt : float) (nt : nat),
      sa !! X0a = Some (Store.Vec x0) -> sb !! X0b = Some (Store.Vec x0) ->
      sa !! pa = Some (Store.Vec p) -> sb !! pb = Some (Store.Vec p) ->
      Store.returned (Store.GCM X0a F dt nt pa sa)
      = Store.returned (Store.GCM X0b F dt nt pb sb))
  /\ (forall (s s1 : Store.store) (X0 param : Store.loc)
          (x0 : ndarray) (p : list float) (F dt : float) (nt : nat)
          (res : Store.loc * Store.loc),
      s !! X0 = Some (Store.Vec x0) -> s !! param = Some (Store.Vec p) ->
      Store.GCM X0 F dt nt param s = Some (res, s1) ->
      Store.returned (Store.GCM X0 F dt nt param s1)
      = Store.returned (Some (res, s1)))
  /\ (forall (P : Type) (time_stepping : stepper P) (rhs : @tendency P)
          (sa sb : Store.store) (X0a X0b : Store.loc)
          (x0 : ndarray) (dt : float) (nt : nat) (param : P),
      sa !! X0a = Some (Store.Vec x0) -> sb !! X0b = Some (Store.Vec x0) ->
      Store.returned (Store.call time_stepping rhs X0a dt nt param sa)
      = Store.returned (Store.call time_stepping rhs X0b dt nt param sb))
  /\ (forall (P : Type) (time_stepping : stepper P) (rhs : @tendency P)
          (s s1 : Store.store) (X0 : Store.loc)
          (x0 : ndarray) (dt : float) (nt : nat) (param : P)
          (res : Store.loc * Store.loc),
      s !! X0 = Some (Store.Vec x0) ->
      Store.call time_stepping rhs X0 dt nt param s = Some (res, s1) ->
      Store.returned (Store.call time_stepping rhs X0 dt nt param s1)
      = Store.returned (Some (res, s1))).
Proof.
  split; [|split; [|split]].
  - intros sa sb X0a X0b pa pb x0 p F dt nt Ha Hb Hpa Hpb.
    rewrite (returned_run _ _ _ _ (GCM_refines sa X0a pa x0 p F dt nt Ha Hpa)).
    by rewrite (returned_run _ _ _ _
                  (GCM_refines sb X0b pb x0 p F dt nt Hb Hpb)).
  - intros s s1 X0 param x0 p F dt nt res HX Hp Hrun.
    pose proof (GCM_refines s X0 param x0 p F dt nt HX Hp) as H1.
    pose proof (run_preserves _ _ _ _ _ _ H1 Hrun) as Hs1.
    rewrite (returned_run _ _ _ _
               (GCM_refines s1 X0 param x0 p F dt nt
                  (Hs1 _ _ HX) (Hs1 _ _ Hp))).
    rewrite <- Hrun. symmetry. by eapply returned_run.
  - intros P ts rhs sa sb X0a X0b x0 dt nt param Ha Hb.
    rewrite (returned_run _ _ _ _
               (call_refines ts rhs sa X0a x0 dt nt param Ha)).
    by rewrite (returned_run _ _ _ _
                  (call_refines ts rhs sb X0b x0 dt nt param Hb)).
  - intros P ts rhs s s1 X0 x0 dt nt param res HX Hrun.
    pose proof (call_refines ts rhs s X0 x0 dt nt param HX) as H1.
    pose proof (run_preserves _ _ _ _ _ _ H1 Hrun) as Hs1.
    rewrite (returned_run _ _ _ _
               (call_refines ts rhs s1 X0 x0 dt nt param (Hs1 _ _ HX))).
    rewrite <- Hrun. symmetry. by eapply returned_run.
Qed.

Lemma C7_reproducible_witness :
  (Store.returned (Store.GCM 0 1500 0.5 3 1 Examples.caller_store)
   = Store.returned (Store.GCM 2 1500 0.5 3 0 Examples.other_store)
   /\ is_Some (Store.returned
                 (Store.GCM 0 1500 0.5 3 1 Examples.caller_store)))
  /\ (exists res s1,
        Store.GCM 0 1500 0.5 3 1 Examples.caller_store = Some (res, s1)
        /\ Store.returned (Store.GCM 0 1500 0.5 3 1 s1)
           = Store.returned (Some (res, s1)))
  /\ (Store.returned
        (Store.call RK4
           (GCM_without_parameterization.rhs Examples.gcm_no_param)
           0 0.125%float 2 default_param Examples.caller_store)
      = Store.returned
          (Store.call RK4
             (GCM_without_parameterization.rhs Examples.gcm_no_param)
             2 0.125%float 2 default_param Examples.other_store))
  /\ (exists res s1,
        Store.call RK4
          (GCM_network.rhs Examples.gcm_linear_net)
          0 0.125%float 2 (Examples.linear_network 0.5 1)
          Examples.caller_store = Some (res, s1)
        /\ Store.returned
             (Store.call RK4
                (GCM_network.rhs Examples.gcm_linear_net)
                0 0.125%float 2 (Examples.linear_network 0.5 1) s1)
           = Store.returned (Some (res, s1))).
Proof.
  destruct C7_reproducible as (H1 & H2 & H3 & H4).
  split; [|split; [|split]].
  - split.
    + apply (H1 Examples.caller_store Examples.other_store 0 2 1 0
               Examples.X_rest default_param); reflexivity.
    + vm_compute. by eexists.
  - do 2 eexists. split; [vm_compute; reflexivity|].
    eapply (H2 Examples.caller_store _ 0 1 Examples.X_rest default_param);
      [reflexivity|reflexivity|vm_compute; reflexivity].
  - apply (H3 _ RK4 _ Examples.caller_store Examples.other_store 0 2
             Examples.X_rest); reflexivity.
  - do 2 eexists. split; [vm_compute; reflexivity|].
    eapply (H4 _ RK4 _ Examples.caller_store _ 0 Examples.X_rest);
      [reflexivity|vm_compute; reflexivity].
Defined.

Lemma run_result_Some (s s' : Store.store) (K : nat) r out res :
  Store.run_result s K r out -> out = Some (res, s') ->
  exists h t, r = Some (h, t) /\ res = (length s + 1, length s)
              /\ s' !! (length s + 1) = Some (Store.Mat K h)
              /\ s' !! length s = Some (Store.Vec t).
Proof.
  destruct r as [[h t]|]; simpl; [|by intros -> ?].
  intros (s1 & -> & _ & Hh & Ht) [= <- <-]. by exists h, t.
Qed.

Lemma loop_result_Some (s s' : Store.store) (hist time : Store.loc)
    (K : nat) r out u :
  Store.loop_result s hist time K r out -> out = Some (u, s') ->
  Store.only_assigns hist time s s'.
Proof.
  destruct r as [[h t]|]; simpl; [|by intros -> ?].
  by intros (s1 & -> & Hs & _) [= _ <-].
Qed.

(** C8.  A run leaves the initial condition as it was, and with it every
    object the store held before the call: the drivers assign to the two
    arrays they return, which are new, and to nothing else.  Inside the
    loops the same holds from any iteration on: every array other than
    the two result arrays, the states of the earlier iterations among
    them, keeps its value; each step puts its state in a new array. *)
Theorem C8_input_unchanged :
  (forall (s s' : Store.store) (X0 param : Store.loc)
          (x0 : ndarray) (p : list float) (F dt : float) (nt : nat)
          (res : Store.loc * Store.loc),
      s !! X0 = Some (Store.Vec x0) -> s !! param = Some (Store.Vec p) ->
      Store.GCM X0 F dt nt param s = Some (res, s') ->
      s' !! X0 = Some (Store.Vec x0)
      /\ forall l o, s !! l = Some o -> s' !! l = Some o)
  /\ (forall (P : Type) (time_stepping : stepper P) (rhs : @tendency P)
          (s s' : Store.store) (X0 : Store.loc)
          (x0 : ndarray) (dt : float) (nt : nat) (param : P)
          (res : Store.loc * Store.loc),
      s !! X0 = Some (Store.Vec x0) ->
      Store.call time_stepping rhs X0 dt nt param s = Some (res, s') ->
      s' !! X0 = Some (Store.Vec x0)
      /\ forall l o, s !! l = Some o -> s' !! l = Some o)
  /\ (forall (F dt : float) (param hist time X : Store.loc)
          (p : list float) (K steps n : nat) (s s' : Store.store)
          (h : ndarray2) (t x : ndarray) (u : unit),
      param <> time -> s !! param = Some (Store.Vec p) ->
      Store.loop_state s hist time X K h t x ->
      Store.GCM_loop F dt param hist time steps n X s = Some (u, s') ->
      Store.only_assigns hist time s s')
  /\ (forall (P : Type) (time_stepping : stepper P) (rhs : @tendency P)
          (dt : float) (param : P) (hist time X : Store.loc)
          (K steps n : nat) (s s' : Store.store)
          (h : ndarray2) (t x : ndarray) (u : unit),
      Store.loop_state s hist time X K h t x ->
      Store.call_loop time_stepping rhs dt param hist time steps n X s
        = Some (u, s') ->
      Store.only_assigns hist time s s').
Proof.
  split; [|split; [|split]].
  - intros s s' X0 param x0 p F dt nt res HX Hp Hrun.
    pose proof (run_preserves _ _ _ _ _ _
                  (GCM_refines s X0 param x0 p F dt nt HX Hp) Hrun) as H.
    split; [by apply H|done].
  - intros P ts rhs s s' X0 x0 dt nt param res HX Hrun.
    pose proof (run_preserves _ _ _ _ _ _
                  (call_refines ts rhs s X0 x0 dt nt param HX) Hrun) as H.
    split; [by apply H|done].
  - intros F dt param hist time X p K steps n s s' h t x u Hpt Hp Hst Hrun.
    eapply loop_result_Some; [|exact Hrun].
    by eapply GCM_loop_refines.
  - intros P ts rhs dt param hist time X K steps n s s' h t x u Hst Hrun.
    eapply loop_result_Some; [|exact Hrun].
    by eapply call_loop_refines.
Qed.

Lemma C8_input_unchanged_witness :
  (exists res s',
      Store.GCM 0 1500 0.5 3 1 Examples.caller_store = Some (res, s')
      /\ s' !! 0 = Some (Store.Vec Examples.X_rest)
      /\ forall l o, Examples.caller_store !! l = Some o -> s' !! l = Some o)
  /\ (exists res s',
      Store.call RK4 (GCM_network.rhs Examples.gcm_linear_net)
        0 0.125%float 2 (Examples.linear_network 0.5 1)
        Examples.caller_store = Some (res, s')
      /\ s' !! 0 = Some (Store.Vec Examples.X_rest)
      /\ forall l o, Examples.caller_store !! l = Some o -> s' !! l = Some o)
  /\ (exists s',
      Store.GCM_loop 1500 0.5 1 3 2 3 0 4
        (Examples.caller_store
           ++ [Store.Vec [0; 0.5; 1]%float;
               Store.Mat 4 (replicate 3 (replicate 4 np.nan));
               Store.Vec Examples.X_rest]) = Some (tt, s')
      /\ s' !! 4 = Some (Store.Vec Examples.X_rest))
  /\ (exists s',
      Store.call_loop RK4
        (GCM_without_parameterization.rhs Examples.gcm_no_param)
        0.125%float default_param 3 2 2 0 4
        (Examples.caller_store
           ++ [Store.Vec [0; 0.125; 0.25]%float;
               Store.Mat 4 (replicate 3 (replicate 4 np.nan));
               Store.Vec Examples.X_init]) = Some (tt, s')
      /\ s' !! 4 = Some (Store.Vec Examples.X_init)).
Proof.
  destruct C8_input_unchanged as (H1 & H2 & H3 & H4).
  split; [|split; [|split]].
  - destruct (Store.GCM 0 1500 0.5 3 1 Examples.caller_store)
      as [[res s']|] eqn:E; [|vm_compute in E; discriminate E].
    exists res, s'. split; [reflexivity|].
    exact (H1 Examples.caller_store s' 0 1 Examples.X_rest default_param
             1500%float 0.5%float 3 res eq_refl eq_refl E).
  - destruct (Store.call RK4 (GCM_network.rhs Examples.gcm_linear_net)
                0 0.125%float 2 (Examples.linear_network 0.5 1)
                Examples.caller_store)
      as [[res s']|] eqn:E; [|vm_compute in E; discriminate E].
    exists res, s'. split; [reflexivity|].
    exact (H2 _ RK4 (GCM_network.rhs Examples.gcm_linear_net)
             Examples.caller_store s' 0 Examples.X_rest 0.125%float 2
             (Examples.linear_network 0.5 1) res eq_refl E).
  - destruct (Store.GCM_loop 1500 0.5 1 3 2 3 0 4 _)
      as [[[] s']|] eqn:E; [|vm_compute in E; discriminate E].
    exists s'. split; [reflexivity|].
    assert (Store.only_assigns 3 2
              (Examples.caller_store
                 ++ [Store.Vec [0; 0.5; 1]%float;
                     Store.Mat 4 (replicate 3 (replicate 4 np.nan));
                     Store.Vec Examples.X_rest]) s') as Hk.
    { apply (H3 1500%float 0.5%float 1 3 2 4 default_param 4 3 0 _ s'
               (replicate 3 (replicate 4 np.nan)) [0; 0.5; 1]%float
               Examples.X_rest tt);
        [lia|reflexivity| |exact E].
      split; [lia|reflexivity|reflexivity|reflexivity]. }
    apply Hk; [lia|lia|reflexivity].
  - destruct (Store.call_loop RK4 _ 0.125%float default_param 3 2 2 0 4 _)
      as [[[] s']|] eqn:E; [|vm_compute in E; discriminate E].
    exists s'. split; [reflexivity|].
    assert (Store.only_assigns 3 2
              (Examples.caller_store
                 ++ [Store.Vec [0; 0.125; 0.25]%float;
                     Store.Mat 4 (replicate 3 (replicate 4 np.nan));
                     Store.Vec Examples.X_init]) s') as Hk.
    { apply (H4 _ RK4
               (GCM_without_parameterization.rhs Examples.gcm_no_param)
               0.125%float default_param 3 2 4 4 2 0 _ s'
               (replicate 3 (replicate 4 np.nan)) [0; 0.125; 0.25]%float
               Examples.X_init tt);
        [|exact E].
      split; [lia|reflexivity|reflexivity|reflexivity]. }
    apply Hk; [lia|lia|reflexivity].
Defined.

(** ** The tendency, entry by entry *)

Lemma polyval_cons (p : list float) (a : float) (x : ndarray)
    (y0 : float) (y : ndarray) :
  fold_left
    (fun y pv => map (fun t => (t + pv)%float)
                   (zip_with PrimFloat.mul y (a :: x)))
    p (y0 :: y)
  = fold_left (fun y pv => (y * a + pv)%float) p y0
    :: fold_left
         (fun y pv => map (fun t => (t + pv)%float)
                        (zip_with PrimFloat.mul y x))
         p y.
Proof.
  revert y0 y. induction p as [|pv p IH]; intros y0 y; simpl; [done|].
  apply IH.
Qed.

(** [np.polyval] evaluates the polynomial at every entry. *)
Lemma polyval_map (p : list float) (x : ndarray) :
  np.polyval p x = map (horner p) x.
Proof.
  unfold np.polyval, horner.
  induction x as [|a x IH]; simpl.
  - induction p as [|pv p IHp]; simpl; [done|apply IHp].
  - by rewrite polyval_cons, IH.
Qed.

Lemma L96_eq1_xdot_lookup (X : ndarray) (F : float) (k : nat) :
  k < length X -> L96_eq1_xdot X F !! k = Some (L96_entry X F k).
Proof.
  intros Hk. unfold L96_eq1_xdot.
  rewrite map_fmap, list_lookup_fmap, lookup_seq_lt by done.
  done.
Qed.

Lemma GCM_step_lookup (F dt : float) (param : list float)
    (X X' : ndarray) (k : nat) (xk : float) :
  GCM_step F dt param X = Some X' -> X !! k = Some xk ->
  X' !! k = Some (xk + dt * (L96_entry X F k - horner param xk))%float.
Proof.
  rewrite GCM_step_eq. intros [= <-] Hk.
  pose proof (lookup_lt_Some _ _ _ Hk) as Hlt.
  unfold np.scale.
  rewrite lookup_zip_with, Hk. simpl.
  rewrite map_fmap, list_lookup_fmap, lookup_zip_with.
  rewrite L96_eq1_xdot_lookup by done. simpl.
  rewrite polyval_map, map_fmap, list_lookup_fmap, Hk. done.
Qed.

Lemma GCM_states_consecutive (F dt : float) (param : list float) :
  forall (steps : nat) (X : ndarray) (i : nat) (Xi Xj : ndarray),
    GCM_states F dt param steps X !! i = Some Xi ->
    GCM_states F dt param steps X !! S i = Some Xj ->
    GCM_step F dt param Xi = Some Xj.
Proof.
  induction steps as [|steps IH]; intros X i Xi Xj; simpl; [done|].
  destruct (GCM_step F dt param X) as [X'|] eqn:HX'; simpl; [|done].
  destruct (diverged X') as [[|]|] eqn:Hd; try done.
  destruct i as [|i]; simpl.
  - intros [= <-] H.
    destruct steps as [|steps]; simpl in H; [done|].
    destruct (GCM_step F dt param X') as [X''|]; simpl in *; [|done].
    destruct (diverged X'') as [[|]|]; try done;
      simpl in H; by injection H as ->.
  - apply IH.
Qed.

(** C3, as amended.  In [GCM] the closure enters with a minus sign: every
    update adds [dt] times [L96_eq1_xdot(X, F) - np.polyval(param, X)],
    entry [k] of which is the slow tendency minus the polynomial at
    [X[k]], and every stored row is the update of the row before it.  In
    [GCM_network.rhs] the output of the network enters with a plus sign:
    the tendency is [L96_eq1_xdot(X, self.F) + U], where [U] is the
    squeezed output of the network. *)
Theorem C3_closure_sign :
  (forall (F dt : float) (param : list float) (X X' : ndarray)
          (k : nat) (xk : float),
      GCM_step F dt param X = Some X' -> X !! k = Some xk ->
      X' !! k
      = Some (xk + dt * (L96_entry X F k - horner param xk))%float)
  /\ (forall (X0 : ndarray) (F dt : float) (nt : nat) (param : list float)
          (hist : ndarray2) (time : ndarray) (i : nat) (Xi Xj : ndarray),
      GCM X0 F dt nt param = Some (hist, time) ->
      S i < length (GCM_states F dt param nt X0) ->
      hist !! i = Some Xi -> hist !! S i = Some Xj ->
      GCM_step F dt param Xi = Some Xj)
  /\ (forall (P : Type) (self : GCM_network.t P) (X : ndarray) (p : P)
          (out : ndarray2) (U : ndarray),
      forward (GCM_network.net self) (GCM_network.X_torch self X)
        = Some out ->
      np.squeeze out = Some U -> length U = length X ->
      exists T,
        GCM_network.rhs self X p = Some T
        /\ forall k uk, k < length X -> U !! k = Some uk ->
             T !! k
             = Some (L96_entry X (GCM_network.F self) k + uk)%float).
Proof.
  split; [|split].
  - apply GCM_step_lookup.
  - intros X0 F dt nt param hist time i Xi Xj H Hlt Hi Hj.
    apply GCM_inv in H. unfold GCM_result in H. injection H as -> ->.
    rewrite lookup_app_l in Hi by lia.
    rewrite lookup_app_l in Hj by lia.
    by eapply GCM_states_consecutive.
  - intros P self X p out U Hout HU HL.
    unfold GCM_network.rhs. rewrite Hout. simpl. rewrite HU. simpl.
    unfold np.add.
    rewrite broadcast_same by (by rewrite length_L96_eq1_xdot).
    eexists. split; [done|].
    intros k uk Hk Huk.
    by rewrite lookup_zip_with, L96_eq1_xdot_lookup, Huk.
Qed.

Lemma C3_closure_sign_witness :
  (exists X',
      GCM_step 18 0.125 [0.5; 1]%float Examples.X_init = Some X'
      /\ X' !! 1
         = Some (2 + 0.125 * (L96_entry Examples.X_init 18 1
                              - horner [0.5; 1] 2))%float)
  /\ (exists hist time Xi Xj,
      GCM Examples.X_init 18 0.125 2 default_param = Some (hist, time)
      /\ hist !! 0 = Some Xi /\ hist !! 1 = Some Xj
      /\ GCM_step 18 0.125 default_param Xi = Some Xj)
  /\ (exists T,
      GCM_network.rhs Examples.gcm_linear_net Examples.X_init
        (Examples.linear_network 0.5 1) = Some T
      /\ T !! 1 = Some (L96_entry Examples.X_init 18 1 + 2)%float).
Proof.
  destruct C3_closure_sign as (H1 & H2 & H3).
  split; [|split].
  - eexists. split; [vm_compute; reflexivity|].
    apply (H1 18%float 0.125%float [0.5; 1]%float Examples.X_init);
      vm_compute; reflexivity.
  - do 4 eexists. split; [vm_compute; reflexivity|].
    split; [vm_compute; reflexivity|].
    split; [vm_compute; reflexivity|].
    eapply (H2 Examples.X_init 18%float 0.125%float 2 default_param
              _ _ 0);
      [vm_compute; reflexivity|vm_compute; lia
      |vm_compute; reflexivity|vm_compute; reflexivity].
  - destruct (H3 _ Examples.gcm_linear_net Examples.X_init
                (Examples.linear_network 0.5 1)
                [[1.5]; [2]; [2.5]; [3]]%float [1.5; 2; 2.5; 3]%float)
      as (T & HT & Hk); [vm_compute; reflexivity..|].
    exists T. split; [done|].
    apply (Hk 1 2%float); [simpl; lia|reflexivity].
Defined.

Lemma C3_counterexample :
  exists out U T,
    forward (GCM_network.net Examples.gcm_linear_net)
      (GCM_network.X_torch Examples.gcm_linear_net Examples.X_init)
      = Some out
    /\ np.squeeze out = Some U
    /\ GCM_network.rhs Examples.gcm_linear_net Examples.X_init
         (Examples.linear_network 0.5 1) = Some T
    /\ np.subtract (L96_eq1_xdot Examples.X_init 18) U
       = Some [11.5; 13; 18.5; 8]%float
    /\ T = [14.5; 17; 23.5; 14]%float
    /\ np.subtract (L96_eq1_xdot Examples.X_init 18) U <> Some T.
Proof.
  do 3 eexists. split; [vm_compute; reflexivity|].
  split; [vm_compute; reflexivity|].
  split; [vm_compute; reflexivity|].
  split; [vm_compute; reflexivity|].
  split; [reflexivity|].
  vm_compute. intros H. discriminate H.
Qed.

(** * Further properties of the drivers *)

(** ** Binary64 facts *)

Lemma SFcompare_refl (x : spec_float) :
  x <> S754_nan -> SFcompare x x = Some Eq.
Proof.
  destruct x as [s|s| |s m e]; try done; intros _; simpl.
  - by destruct s.
  - rewrite Z.compare_refl, Pos.compare_cont_refl. by destruct s.
Qed.

Lemma is_nan_spec (x : float) : is_nan x = true <-> Prim2SF x = S754_nan.
Proof.
  unfold is_nan. rewrite FloatAxioms.eqb_spec. unfold SFeqb. split.
  - intros H. destruct (Prim2SF x) eqn:E; try done;
      rewrite SFcompare_refl in H; done.
  - by intros ->.
Qed.

Lemma is_finite_spec (x : float) :
  is_finite x = true <->
  match Prim2SF x with
  | S754_zero _ | S754_finite _ _ _ => True
  | _ => False
  end.
Proof.
  unfold is_finite, is_nan, is_infinity.
  rewrite !FloatAxioms.eqb_spec, abs_spec.
  change (Prim2SF infinity) with (S754_infinity false).
  destruct (Prim2SF x) as [s|s| |s m e] eqn:E; simpl.
  - by destruct s.
  - by destruct s.
  - done.
  - unfold SFeqb. rewrite SFcompare_refl by done. simpl.
    by destruct s.
Qed.

Lemma sub_zero_r (t : float) : (t - 0)%float = t.
Proof.
  apply Prim2SF_inj. rewrite sub_spec.
  change (Prim2SF 0) with (S754_zero false).
  by destruct (Prim2SF t) as [[]|[]| |[] ? ?].
Qed.

Lemma zero_mul_add (x : float) :
  is_finite x = true -> (0 * x + 0)%float = 0%float.
Proof.
  intros H. apply is_finite_spec in H.
  apply Prim2SF_inj. rewrite add_spec, mul_spec.
  change (Prim2SF 0) with (S754_zero false).
  destruct (Prim2SF x) as [s|s| |s m e]; try done; by destruct s.
Qed.

Lemma zero_mul_add_nan (x : float) :
  is_finite x = false -> (0 * x + 0)%float = nan.
Proof.
  intros H. apply Prim2SF_inj. rewrite add_spec, mul_spec.
  change (Prim2SF 0) with (S754_zero false).
  change (Prim2SF nan) with S754_nan.
  destruct (Prim2SF x) as [s|s| |s m e] eqn:E; try done.
  - assert (is_finite x = true)
      by (apply is_finite_spec; by rewrite E).
    congruence.
  - assert (is_finite x = true)
      by (apply is_finite_spec; by rewrite E).
    congruence.
Qed.

Lemma add_nan_l (x y : float) : is_nan x = true -> is_nan (x + y) = true.
Proof.
  rewrite !is_nan_spec, add_spec. intros ->. done.
Qed.

Lemma add_nan_r (x y : float) : is_nan y = true -> is_nan (x + y) = true.
Proof.
  rewrite !is_nan_spec, add_spec. intros ->.
  by destruct (Prim2SF x) as [[]|[]| |[] ? ?].
Qed.

Lemma sub_nan_r (x y : float) : is_nan y = true -> is_nan (x - y) = true.
Proof.
  rewrite !is_nan_spec, sub_spec. intros ->.
  by destruct (Prim2SF x) as [[]|[]| |[] ? ?].
Qed.

Lemma mul_nan_r (x y : float) : is_nan y = true -> is_nan (x * y) = true.
Proof.
  rewrite !is_nan_spec, mul_spec. intros ->.
  by destruct (Prim2SF x) as [[]|[]| |[] ? ?].
Qed.

Lemma abs_nan (x : float) : is_nan x = true -> is_nan (abs x) = true.
Proof. rewrite !is_nan_spec, abs_spec. by intros ->. Qed.

Lemma ltb_nan_r (c m : float) : is_nan m = true -> (c <? m)%float = false.
Proof.
  rewrite is_nan_spec, ltb_spec. intros ->. unfold SFltb.
  by destruct (Prim2SF c) as [[]|[]| |[] ? ?].
Qed.

Lemma nan_eq (x : float) : is_nan x = true -> x = nan.
Proof.
  rewrite is_nan_spec. intros H. apply Prim2SF_inj. by rewrite H.
Qed.

Lemma ltb_zero_sign (dt : float) :
  (dt <? 0)%float = false ->
  match Prim2SF dt with
  | S754_infinity s | S754_finite s _ _ => s = false
  | _ => True
  end.
Proof.
  rewrite ltb_spec. change (Prim2SF 0) with (S754_zero false).
  unfold SFltb. by destruct (Prim2SF dt) as [[]|[]| |[] ? ?].
Qed.

(** At an infinite entry the plain Euler update gives NaN when the step
    size is not negative: the tendency has [- x] in it. *)
Lemma euler_infinite_entry (x s F dt : float) (sx : bool) :
  Prim2SF x = S754_infinity sx -> (dt <? 0)%float = false ->
  is_nan (x + dt * (s - x + F)) = true.
Proof.
  intros Hx Hdt. apply ltb_zero_sign in Hdt.
  rewrite is_nan_spec, add_spec, mul_spec, add_spec, sub_spec, Hx.
  destruct (Prim2SF dt) as [sd|sd| |sd md ed]; try subst sd;
    destruct (Prim2SF s) as [ss|ss| |ss ms es];
    destruct (Prim2SF F) as [sF|sF| |sF mF eF];
    destruct sx; try destruct ss; try destruct sF; try destruct sd;
    reflexivity.
Qed.

Lemma not_finite_cases (x : float) :
  is_finite x = false ->
  is_nan x = true \/ exists sx, Prim2SF x = S754_infinity sx.
Proof.
  intros H. destruct (Prim2SF x) as [s|s| |s m e] eqn:E.
  - assert (is_finite x = true)
      by (apply is_finite_spec; by rewrite E).
    congruence.
  - right. by exists s.
  - left. by apply is_nan_spec.
  - assert (is_finite x = true)
      by (apply is_finite_spec; by rewrite E).
    congruence.
Qed.

(** One entry of the update, with the default closure and with none. *)
Lemma default_closure_entry (x s F dt : float) :
  (dt <? 0)%float = false \/ is_finite x = true ->
  (x + dt * (s - x + F - (0 * x + 0)))%float
  = (x + dt * (s - x + F - 0))%float.
Proof.
  intros H. destruct (is_finite x) eqn:Hfin.
  - by rewrite zero_mul_add.
  - destruct H as [Hdt|]; [|done].
    rewrite zero_mul_add_nan by done. rewrite sub_zero_r.
    rewrite (nan_eq (x + dt * (s - x + F - nan))).
    + symmetry. apply nan_eq.
      destruct (not_finite_cases x Hfin) as [Hn|[sx Hx]].
      * by apply add_nan_l.
      * by eapply euler_infinite_entry.
    + apply add_nan_r, mul_nan_r, sub_nan_r. reflexivity.
Qed.

Lemma L96_entry_eq (X : ndarray) (F : float) (k : nat) (xk : float) :
  X !! k = Some xk ->
  exists s, L96_entry X F k = (s - xk + F)%float.
Proof.
  intros Hk. pose proof (lookup_lt_Some _ _ _ Hk) as Hlt.
  unfold L96_entry. eexists.
  rewrite (Nat.mod_small k) by done. rewrite Hk. simpl. reflexivity.
Qed.

Lemma GCM_step_ext (F dt : float) (p1 p2 : list float) (X : ndarray) :
  (forall k xk, X !! k = Some xk ->
     (xk + dt * (L96_entry X F k - horner p1 xk))%float
     = (xk + dt * (L96_entry X F k - horner p2 xk))%float) ->
  GCM_step F dt p1 X = GCM_step F dt p2 X.
Proof.
  intros H.
  destruct (GCM_step F dt p1 X) as [X1|] eqn:E1;
    [|by rewrite GCM_step_eq in E1].
  destruct (GCM_step F dt p2 X) as [X2|] eqn:E2;
    [|by rewrite GCM_step_eq in E2].
  f_equal. apply list_eq. intros k.
  destruct (X !! k) as [xk|] eqn:Hk.
  - rewrite (GCM_step_lookup _ _ _ _ _ _ _ E1 Hk).
    rewrite (GCM_step_lookup _ _ _ _ _ _ _ E2 Hk).
    f_equal. by apply H.
  - apply lookup_ge_None in Hk.
    apply GCM_step_length in E1, E2.
    rewrite !lookup_ge_None_2; [done|lia|lia].
Qed.

Lemma GCM_loop_ext (F dt : float) (p1 p2 : list float) (K : nat) :
  (forall X, GCM_step F dt p1 X = GCM_step F dt p2 X) ->
  forall (steps n : nat) (X : ndarray) (hist : ndarray2) (time : ndarray),
    GCM_loop F dt p1 K steps n X hist time
    = GCM_loop F dt p2 K steps n X hist time.
Proof.
  intros H. induction steps as [|steps IH]; intros n X hist time;
    simpl; [done|].
  rewrite H. destruct (GCM_step F dt p2 X) as [X'|]; simpl; [|done].
  destruct (diverged X') as [[|]|]; simpl; try done.
  destruct (np.setrow hist K n X') as [hist'|]; simpl; [|done].
  destruct (np.setitem time n _) as [time'|]; simpl; [|done].
  apply IH.
Qed.

Lemma GCM_step_default (F dt : float) (X : ndarray) :
  (dt <? 0)%float = false \/ Forall (fun x => is_finite x = true) X ->
  GCM_step F dt default_param X = GCM_step F dt [] X.
Proof.
  intros H. apply GCM_step_ext. intros k xk Hk.
  destruct (L96_entry_eq X F k xk Hk) as [s ->].
  change (horner default_param xk) with (0 * xk + 0)%float.
  change (horner [] xk) with 0%float.
  apply default_closure_entry.
  destruct H as [H|H]; [by left|right].
  rewrite Forall_lookup in H. by eapply H.
Qed.

(** With an empty list of coefficients the closure is the zero array,
    and subtracting it changes nothing, at any entry. *)
Lemma GCM_step_no_coefficients (F dt : float) (X : ndarray) :
  GCM_step F dt [] X = np.add X (np.scale dt (L96_eq1_xdot X F)).
Proof.
  rewrite GCM_step_eq. unfold np.add.
  rewrite broadcast_same
    by (by rewrite length_scale, length_L96_eq1_xdot).
  do 3 f_equal. unfold np.polyval. simpl.
  pose proof (length_L96_eq1_xdot X F) as HL. revert HL.
  generalize (L96_eq1_xdot X F). intros T. revert T.
  induction X as [|x X IH]; intros [|t T]; simpl; try done.
  intros [= HL]. by rewrite sub_zero_r, IH.
Qed.

(** ** The closure of [GCM] with no coefficient and with the default *)

Lemma EulerFwd_rhs {P : Type} (self : GCM_without_parameterization.t P)
    (dt : float) (X : ndarray) (p : P) :
  EulerFwd (GCM_without_parameterization.rhs self) dt X p
  = GCM_step (GCM_without_parameterization.F self) dt [] X.
Proof.
  unfold EulerFwd, GCM_without_parameterization.rhs. simpl.
  symmetry. apply GCM_step_no_coefficients.
Qed.

Lemma euler_rows {P : Type} (self : GCM_without_parameterization.t P)
    (dt : float) (p : P) (K : nat) :
  forall (steps : nat) (X : ndarray) (rows : list ndarray),
    call_rows EulerFwd (GCM_without_parameterization.rhs self)
      dt p K steps X = Some rows ->
    length X = K ->
    (forall i row, rows !! i = Some row -> diverged row = Some false) ->
    GCM_states (GCM_without_parameterization.F self) dt [] steps X = rows.
Proof.
  induction steps as [|steps IH]; intros X rows; simpl.
  - by intros [= <-].
  - rewrite EulerFwd_rhs.
    destruct (GCM_step _ dt [] X) as [X'|] eqn:HX'; [simpl|done].
    intros Hrows HK Hd.
    pose proof (GCM_step_length _ _ _ _ _ HX') as HL.
    rewrite stretch_same in Hrows by congruence. simpl in Hrows.
    destruct (call_rows _ _ _ _ _ steps X') as [rows'|] eqn:E;
      [simpl in Hrows|done].
    injection Hrows as <-.
    rewrite (Hd 0 X' eq_refl). f_equal.
    apply IH; [done|congruence|].
    intros i row Hi. by apply (Hd (S i)).
Qed.

(** X1.  With an empty list of coefficients every update of [GCM] is
    [X + dt * L96_eq1_xdot(X, F)] exactly, at every state, non-finite
    entries included.  It is the update of [GCM_without_parameterization]
    with the [EulerFwd] scheme: when no row of that driver's history
    trips the guard of [GCM], [GCM] returns the same rows without the
    initial condition. *)
Theorem X1_no_coefficients_is_euler :
  (forall (F dt : float) (X : ndarray),
      GCM_step F dt [] X = np.add X (np.scale dt (L96_eq1_xdot X F)))
  /\ (forall (P : Type) (self : GCM_without_parameterization.t P)
          (X0 : ndarray) (dt : float) (nt : nat) (p : P)
          (hist : ndarray2) (time : ndarray),
      GCM_without_parameterization.time_stepping self = EulerFwd ->
      X0 <> [] ->
      GCM_without_parameterization.__call__ self X0 dt nt p
        = Some (hist, time) ->
      (forall i row, hist !! S i = Some row -> diverged row = Some false) ->
      exists time',
        GCM X0 (GCM_without_parameterization.F self) dt nt []
        = Some (tail hist, time')).
Proof.
  split; [apply GCM_step_no_coefficients|].
  intros P self X0 dt nt p hist time Hts HX Hcall Hd.
  unfold GCM_without_parameterization.__call__ in Hcall.
  rewrite Hts, call_eq in Hcall.
  destruct (call_rows _ _ _ _ _ nt X0) as [rows|] eqn:E;
    [simpl in Hcall|done].
  injection Hcall as <- <-.
  pose proof (call_rows_length _ _ _ _ _ _ _ _ E) as Hlen.
  apply euler_rows in E; [|done|exact Hd].
  rewrite GCM_eq by done. unfold GCM_result. rewrite E, Hlen.
  replace (nt - nt) with 0 by lia. simpl. rewrite app_nil_r.
  by eexists.
Qed.

Lemma X1_no_coefficients_is_euler_witness :
  (GCM_step 18 0.125 [] Runs.X_inf
   = np.add Runs.X_inf (np.scale 0.125 (L96_eq1_xdot Runs.X_inf 18)))
  /\ (exists hist time time',
        GCM_without_parameterization.__call__ Runs.gcm_euler
          Examples.X_init 0.125%float 3 default_param = Some (hist, time)
        /\ GCM Examples.X_init 18 0.125 3 [] = Some (tail hist, time')).
Proof.
  destruct X1_no_coefficients_is_euler as (H1 & H2).
  split; [apply H1|].
  destruct (GCM_without_parameterization.__call__ Runs.gcm_euler
              Examples.X_init 0.125%float 3 default_param)
    as [[hist time]|] eqn:E; [|vm_compute in E; discriminate E].
  destruct (H2 _ Runs.gcm_euler Examples.X_init 0.125%float 3
              default_param hist time eq_refl) as [time' Ht'];
    [discriminate|exact E| |].
  - intros i row Hrow. vm_compute in E. injection E as <- <-.
    destruct i as [|[|[|i]]]; simpl in Hrow;
      try (injection Hrow as <-; vm_compute; reflexivity); done.
  - exists hist, time, time'. split; [reflexivity|exact Ht'].
Defined.

(** X2.  The default closure [param=[0]].  [np.polyval([0], X)] is zero
    at every finite entry of [X] and NaN at every infinite or NaN entry.
    On a state with finite entries the update is
    [X + dt * L96_eq1_xdot(X, F)] exactly; and for a step size that is
    not negative [GCM] returns with [param=[0]] exactly what it returns
    with no coefficient, from every initial state. *)
Theorem X2_default_closure :
  (forall (X : ndarray),
      Forall (fun x => is_finite x = true) X ->
      np.polyval default_param X = replicate (length X) 0%float)
  /\ (forall (X : ndarray) (k : nat) (xk : float),
      X !! k = Some xk -> is_finite xk = false ->
      np.polyval default_param X !! k = Some nan)
  /\ (forall (F dt : float) (X : ndarray),
      Forall (fun x => is_finite x = true) X ->
      GCM_step F dt default_param X
      = np.add X (np.scale dt (L96_eq1_xdot X F)))
  /\ (forall (X0 : ndarray) (F dt : float) (nt : nat),
      (dt <? 0)%float = false ->
      GCM X0 F dt nt default_param = GCM X0 F dt nt []).
Proof.
  split; [|split; [|split]].
  - intros X HX. rewrite polyval_map.
    induction HX as [|x X Hx HX IH]; simpl; [done|].
    rewrite IH. f_equal.
    change (horner default_param x) with (0 * x + 0)%float.
    by apply zero_mul_add.
  - intros X k xk Hk Hfin.
    rewrite polyval_map, map_fmap, list_lookup_fmap, Hk. simpl. f_equal.
    change (horner default_param xk) with (0 * xk + 0)%float.
    by apply zero_mul_add_nan.
  - intros F dt X HX. rewrite <- GCM_step_no_coefficients.
    apply GCM_step_default. by right.
  - intros X0 F dt nt Hdt. unfold GCM. apply GCM_loop_ext.
    intros X. apply GCM_step_default. by left.
Qed.

Lemma X2_default_closure_witness :
  (Forall (fun x => is_finite x = true) Examples.X_init
   /\ np.polyval default_param Examples.X_init = replicate 4 0%float)
  /\ (is_finite infinity = false
      /\ np.polyval default_param Runs.X_inf !! 0 = Some nan)
  /\ (GCM_step 18 0.125 default_param Examples.X_init
      = np.add Examples.X_init
          (np.scale 0.125 (L96_eq1_xdot Examples.X_init 18)))
  /\ ((0 <? 0)%float = false
      /\ GCM Runs.X_inf 18 0 2 default_param = GCM Runs.X_inf 18 0 2 []).
Proof.
  destruct X2_default_closure as (H1 & H2 & H3 & H4).
  assert (Forall (fun x => is_finite x = true) Examples.X_init) as Hfin
    by (repeat constructor).
  split; [|split; [|split]].
  - split; [exact Hfin|]. by apply (H1 Examples.X_init).
  - split; [reflexivity|]. by apply (H2 Runs.X_inf 0 infinity).
  - by apply H3.
  - split; [reflexivity|]. by apply H4.
Defined.

(** ** The guard and NaN *)

Lemma maximum_nan_l (a b : float) :
  is_nan a = true -> is_nan (np.maximum a b) = true.
Proof. intros H. unfold np.maximum. by rewrite H. Qed.

Lemma maximum_nan_r (a b : float) :
  is_nan b = true -> is_nan (np.maximum a b) = true.
Proof.
  intros H. unfold np.maximum. destruct (is_nan a) eqn:Ha; [done|].
  by rewrite H.
Qed.

Lemma fold_maximum_nan_acc (r : ndarray) (a : float) :
  is_nan a = true -> is_nan (fold_left np.maximum r a) = true.
Proof.
  revert a. induction r as [|b r IH]; intros a Ha; simpl; [done|].
  by apply IH, maximum_nan_l.
Qed.

Lemma fold_maximum_nan (r : ndarray) (a : float) :
  existsb is_nan r = true -> is_nan (fold_left np.maximum r a) = true.
Proof.
  revert a. induction r as [|b r IH]; intros a; simpl; [done|].
  destruct (is_nan b) eqn:Hb; simpl.
  - intros _. by apply fold_maximum_nan_acc, maximum_nan_r.
  - apply IH.
Qed.

Lemma max_nan (X : ndarray) :
  existsb is_nan X = true ->
  exists m, np.max X = Some m /\ is_nan m = true.
Proof.
  destruct X as [|x X]; simpl; [done|].
  intros H. eexists. split; [done|].
  destruct (is_nan x) eqn:Hx; simpl in H.
  - by apply fold_maximum_nan_acc.
  - by apply fold_maximum_nan.
Qed.

Lemma existsb_abs_nan (X : ndarray) :
  existsb is_nan X = true -> existsb is_nan (np.abs X) = true.
Proof.
  induction X as [|x X IH]; simpl; [done|].
  destruct (is_nan x) eqn:Hx; simpl.
  - intros _. by rewrite abs_nan.
  - intros H. rewrite IH by done. by rewrite orb_true_r.
Qed.

(** A state with a NaN entry does not trip the guard. *)
Lemma diverged_nan (X : ndarray) :
  existsb is_nan X = true -> diverged X = Some false.
Proof.
  intros H. unfold diverged.
  destruct (max_nan (np.abs X) (existsb_abs_nan X H)) as (m & -> & Hm).
  simpl. by rewrite ltb_nan_r.
Qed.

Lemma existsb_lookup (X : ndarray) (k : nat) (x : float) :
  X !! k = Some x -> is_nan x = true -> existsb is_nan X = true.
Proof.
  intros Hk Hx. apply existsb_exists. exists x. split; [|done].
  apply list_elem_of_In. by eapply list_elem_of_lookup_2.
Qed.

(** A NaN entry stays NaN through the update. *)
Lemma GCM_step_nan (F dt : float) (param : list float) (X X' : ndarray)
    (k : nat) (xk : float) :
  X !! k = Some xk -> is_nan xk = true ->
  GCM_step F dt param X = Some X' ->
  exists x', X' !! k = Some x' /\ is_nan x' = true.
Proof.
  intros Hk Hx HX'. eexists. split.
  - by eapply GCM_step_lookup.
  - by apply add_nan_l.
Qed.

Lemma GCM_states_nan (F dt : float) (param : list float) (k : nat) :
  forall (steps : nat) (X : ndarray) (xk : float),
    X !! k = Some xk -> is_nan xk = true ->
    length (GCM_states F dt param steps X) = steps
    /\ forall i Xi, GCM_states F dt param steps X !! i = Some Xi ->
         exists x, Xi !! k = Some x /\ is_nan x = true.
Proof.
  induction steps as [|steps IH]; intros X xk Hk Hx; simpl; [done|].
  destruct (GCM_step F dt param X) as [X'|] eqn:HX';
    [|by rewrite GCM_step_eq in HX'].
  destruct (GCM_step_nan _ _ _ _ _ _ _ Hk Hx HX') as (x' & Hk' & Hx').
  rewrite (diverged_nan X') by by eapply existsb_lookup.
  destruct (IH X' x' Hk' Hx') as [Hlen Hrows].
  split; [simpl; by rewrite Hlen|].
  intros [|i] Xi; simpl.
  - intros [= <-]. by exists x'.
  - apply Hrows.
Qed.

(** X3.  A NaN in the state silences the guard for the rest of the run.
    From an initial state with a NaN entry [GCM] never stops early: it
    stores all [nt] rows, each one the iterate of the update, and each
    one with a NaN at that entry, whatever the other entries are. *)
Theorem X3_nan_silences_guard (X0 : ndarray) (F dt : float) (nt : nat)
    (param : list float) (k : nat) (xk : float) :
  X0 !! k = Some xk -> is_nan xk = true ->
  exists hist time,
    GCM X0 F dt nt param = Some (hist, time)
    /\ length hist = nt
    /\ forall i, i < nt ->
         exists Xi x, hist !! i = Some Xi
                      /\ GCM_iter F dt param (S i) X0 = Some Xi
                      /\ diverged Xi = Some false
                      /\ Xi !! k = Some x /\ is_nan x = true.
Proof.
  intros Hk Hx.
  assert (X0 <> []) as HX0 by (intros ->; done).
  destruct (GCM_states_nan F dt param k nt X0 xk Hk Hx) as [Hlen Hrows].
  rewrite GCM_eq by done. unfold GCM_result. rewrite Hlen.
  replace (nt - nt) with 0 by lia. simpl. rewrite app_nil_r.
  do 2 eexists. split; [done|]. split; [done|].
  intros i Hi.
  destruct (lookup_lt_is_Some_2 (GCM_states F dt param nt X0) i)
    as [Xi HXi]; [lia|].
  destruct (Hrows i Xi HXi) as (x & Hxk & Hxn).
  destruct (GCM_states_lookup _ _ _ _ _ _ _ HXi) as [Hit Hd].
  by exists Xi, x.
Qed.

Lemma X3_nan_silences_guard_witness :
  Runs.X_nan !! 1 = Some nan /\ is_nan nan = true
  /\ exists hist time,
       GCM Runs.X_nan 1500 0.5 3 default_param = Some (hist, time)
       /\ length hist = 3
       /\ forall i, i < 3 ->
            exists Xi x, hist !! i = Some Xi
                         /\ GCM_iter 1500 0.5 default_param (S i) Runs.X_nan
                            = Some Xi
                         /\ diverged Xi = Some false
                         /\ Xi !! 1 = Some x /\ is_nan x = true.
Proof.
  split; [reflexivity|]. split; [reflexivity|].
  apply (X3_nan_silences_guard Runs.X_nan 1500%float 0.5%float 3
           default_param 1 nan); reflexivity.
Defined.

(** ** The order of binary64 values, and the bound the guard gives *)

Ltac cmp_cases :=
  repeat match goal with
  | |- context [Z.compare ?a ?b] => destruct (Z.compare_spec a b)
  | H : context [Z.compare ?a ?b] |- _ => destruct (Z.compare_spec a b)
  | |- context [Pos.compare_cont Eq ?a ?b] =>
      change (Pos.compare_cont Eq a b) with (Pos.compare a b);
      destruct (Pos.compare_spec a b)
  | H : context [Pos.compare_cont Eq ?a ?b] |- _ =>
      change (Pos.compare_cont Eq a b) with (Pos.compare a b) in H;
      destruct (Pos.compare_spec a b)
  end.

Lemma SFltb_trans (x y z : spec_float) :
  SFltb x y = true -> SFltb y z = true -> SFltb x z = true.
Proof.
  unfold SFltb.
  destruct x as [sx|sx| |sx mx ex], y as [sy|sy| |sy my ey],
    z as [sz|sz| |sz mz ez]; simpl; try done;
    repeat match goal with s : bool |- _ => destruct s end;
    simpl; try done;
    intros H1 H2; cmp_cases; simpl in *; try done; try lia.
Qed.

Lemma SFltb_leb_trans (x y z : spec_float) :
  SFltb x y = true -> SFleb y z = true -> SFltb x z = true.
Proof.
  unfold SFltb, SFleb.
  destruct x as [sx|sx| |sx mx ex], y as [sy|sy| |sy my ey],
    z as [sz|sz| |sz mz ez]; simpl; try done;
    repeat match goal with s : bool |- _ => destruct s end;
    simpl; try done;
    intros H1 H2; cmp_cases; simpl in *; try done; try lia.
Qed.

Lemma SFltb_false_leb (x y : spec_float) :
  x <> S754_nan -> y <> S754_nan ->
  SFltb x y = false -> SFleb y x = true.
Proof.
  unfold SFltb, SFleb.
  destruct x as [sx|sx| |sx mx ex], y as [sy|sy| |sy my ey];
    simpl; try done;
    repeat match goal with s : bool |- _ => destruct s end;
    simpl; try done;
    intros _ _ H1; cmp_cases; simpl in *; try done; try lia.
Qed.

Lemma not_nan_spec (x : float) : is_nan x = false -> Prim2SF x <> S754_nan.
Proof.
  intros H E. apply is_nan_spec in E. congruence.
Qed.

Lemma ltb_trans (a b c : float) :
  (a <? b)%float = true -> (b <? c)%float = true -> (a <? c)%float = true.
Proof. rewrite !ltb_spec. apply SFltb_trans. Qed.

Lemma ltb_leb_trans (a b c : float) :
  (a <? b)%float = true -> (b <=? c)%float = true -> (a <? c)%float = true.
Proof. rewrite !ltb_spec, leb_spec. apply SFltb_leb_trans. Qed.

Lemma ltb_false_leb (a b : float) :
  is_nan a = false -> is_nan b = false ->
  (a <? b)%float = false -> (b <=? a)%float = true.
Proof.
  intros Ha Hb. rewrite ltb_spec, leb_spec.
  apply SFltb_false_leb; by apply not_nan_spec.
Qed.

Lemma maximum_not_nan (a b : float) :
  is_nan a = false -> is_nan b = false -> is_nan (np.maximum a b) = false.
Proof.
  intros Ha Hb. unfold np.maximum. rewrite Ha, Hb.
  by destruct (a <? b)%float.
Qed.

(** A bound that the larger of two values does not exceed is exceeded by
    neither. *)
Lemma maximum_bound (a b c : float) :
  is_nan a = false -> is_nan b = false ->
  (c <? np.maximum a b)%float = false ->
  (c <? a)%float = false /\ (c <? b)%float = false.
Proof.
  intros Ha Hb. unfold np.maximum. rewrite Ha, Hb.
  destruct (a <? b)%float eqn:Hab; intros Hc; split; try done.
  - destruct (c <? a)%float eqn:Hca; [|done].
    by rewrite (ltb_trans c a b) in Hc.
  - destruct (c <? b)%float eqn:Hcb; [|done].
    rewrite (ltb_leb_trans c b a) in Hc; [done|done|].
    by apply ltb_false_leb.
Qed.

Lemma fold_maximum_bound (c : float) :
  forall (r : ndarray) (a : float),
    is_nan a = false -> existsb is_nan r = false ->
    (c <? fold_left np.maximum r a)%float = false ->
    (c <? a)%float = false
    /\ Forall (fun x => (c <? x)%float = false) r.
Proof.
  induction r as [|b r IH]; intros a Ha Hr; simpl; [done|].
  simpl in Hr. apply orb_false_elim in Hr as [Hb Hr].
  intros Hc.
  destruct (IH (np.maximum a b) (maximum_not_nan a b Ha Hb) Hr Hc)
    as [Hab Hrest].
  destruct (maximum_bound a b c Ha Hb Hab) as [H1 H2].
  split; [done|]. by constructor.
Qed.

Lemma abs_not_nan (x : float) : is_nan x = false -> is_nan (abs x) = false.
Proof.
  intros H. destruct (is_nan (abs x)) eqn:E; [|done].
  apply is_nan_spec in E. rewrite abs_spec in E.
  apply not_nan_spec in H.
  by destruct (Prim2SF x).
Qed.

(** A state without NaN that does not trip the guard has every component
    within the threshold. *)
Lemma diverged_false_bound (X : ndarray) :
  diverged X = Some false -> existsb is_nan X = false ->
  Forall (fun x => (abs x <=? 1e3)%float = true) X.
Proof.
  unfold diverged. destruct X as [|x X]; [done|]. simpl.
  intros [= Hc] Hn. apply orb_false_elim in Hn as [Hx HX].
  assert (existsb is_nan (np.abs X) = false) as HX'.
  { clear Hc. induction X as [|y X IH]; simpl in *; [done|].
    apply orb_false_elim in HX as [Hy HX].
    by rewrite abs_not_nan, IH. }
  destruct (fold_maximum_bound 1e3%float (np.abs X) (abs x)
              (abs_not_nan x Hx) HX' Hc) as [H1 H2].
  constructor.
  - by apply ltb_false_leb; [|apply abs_not_nan|].
  - clear Hc HX'. induction X as [|y X IH]; simpl in *; [done|].
    apply orb_false_elim in HX as [Hy HX].
    apply Forall_cons in H2 as [H2 H3].
    constructor; [|by apply IH].
    by apply ltb_false_leb; [|apply abs_not_nan|].
Qed.

(** X4.  Every row of the history [GCM] returns either contains a NaN
    or has every component within the threshold, [abs(x) <= 1e3]: a row
    left unset is NaN, and a stored row did not trip the guard.  A stored
    row with a NaN is under no bound. *)
Theorem X4_rows_bounded_or_nan (X0 : ndarray) (F dt : float) (nt : nat)
    (param : list float) (hist : ndarray2) (time : ndarray)
    (i : nat) (row : ndarray) :
  GCM X0 F dt nt param = Some (hist, time) ->
  hist !! i = Some row ->
  existsb is_nan row = true
  \/ Forall (fun x => (abs x <=? 1e3)%float = true) row.
Proof.
  intros H Hrow.
  destruct (GCM_rows _ _ _ _ _ _ _ H) as (m & Hm & Hset & Hunset & _).
  pose proof (lookup_lt_Some _ _ _ Hrow) as Hi.
  assert (length hist = nt) as Hlen.
  { apply GCM_inv in H. injection H as -> _.
    pose proof (GCM_states_length F dt param nt X0).
    rewrite length_app, length_replicate. lia. }
  destruct (decide (i < m)) as [Him|Him].
  - destruct (Hset i Him) as (Xi & HXi & _ & Hd).
    assert (Xi = row) as -> by congruence.
    destruct (existsb is_nan row) eqn:Hn; [by left|right].
    by apply diverged_false_bound.
  - rewrite Hunset in Hrow by lia. injection Hrow as <-.
    destruct (length X0) as [|K]; [by right|left]. reflexivity.
Qed.

Lemma X4_rows_bounded_or_nan_witness :
  exists hist time row0 row1,
    GCM Examples.X_rest 1500 0.5 3 default_param = Some (hist, time)
    /\ hist !! 0 = Some row0 /\ hist !! 1 = Some row1
    /\ (existsb is_nan row0 = true
        \/ Forall (fun x => (abs x <=? 1e3)%float = true) row0)
    /\ (existsb is_nan row1 = true
        \/ Forall (fun x => (abs x <=? 1e3)%float = true) row1).
Proof.
  destruct (GCM Examples.X_rest 1500 0.5 3 default_param)
    as [[hist time]|] eqn:E; [|vm_compute in E; discriminate E].
  assert (exists row0 row1, hist !! 0 = Some row0 /\ hist !! 1 = Some row1)
    as (row0 & row1 & H0 & H1).
  { vm_compute in E. injection E as <- <-. by do 2 eexists. }
  exists hist, time, row0, row1. split; [reflexivity|].
  split; [exact H0|]. split; [exact H1|]. split.
  - exact (X4_rows_bounded_or_nan _ _ _ _ _ hist time 0 row0 E H0).
  - exact (X4_rows_bounded_or_nan _ _ _ _ _ hist time 1 row1 E H1).
Defined.

(** ** The shape of the arrays returned *)

Lemma GCM_states_row_length (F dt : float) (param : list float) :
  forall (steps : nat) (X : ndarray),
    Forall (fun row => length row = length X)
      (GCM_states F dt param steps X).
Proof.
  induction steps as [|steps IH]; intros X; simpl; [done|].
  destruct (GCM_step F dt param X) as [X'|] eqn:HX'; [|done].
  destruct (diverged X') as [[|]|]; try done.
  apply GCM_step_length in HX'. constructor; [done|].
  rewrite <- HX'. apply IH.
Qed.

Lemma call_rows_row_length {P : Type} (time_stepping : stepper P)
    (rhs : @tendency P) (dt : float) (param : P) (K : nat) :
  forall (steps : nat) (X : ndarray) (rows : list ndarray),
    call_rows time_stepping rhs dt param K steps X = Some rows ->
    Forall (fun row => length row = K) rows.
Proof.
  induction steps as [|steps IH]; intros X rows; simpl.
  - by intros [= <-].
  - destruct (time_stepping rhs dt X param) as [X'|]; [simpl|done].
    destruct (np.stretch K X') as [row|] eqn:Hrow; [simpl|done].
    destruct (call_rows _ _ _ _ _ steps X') as [rows'|] eqn:E;
      [simpl|done].
    intros [= <-]. constructor; [by eapply length_stretch|by eapply IH].
Qed.

Lemma call_rectangular {P : Type} (time_stepping : stepper P)
    (rhs : @tendency P) (X0 : ndarray) (dt : float) (nt : nat) (param : P)
    (hist : ndarray2) (time : ndarray) :
  call time_stepping rhs X0 dt nt param = Some (hist, time) ->
  length hist = nt + 1 /\ length time = nt + 1
  /\ Forall (fun row => length row = length X0) hist.
Proof.
  intros H. pose proof (call_shape _ _ _ _ _ _ _ _ H) as (H1 & _ & ->).
  split; [done|]. split.
  - unfold np.time_axis. by rewrite length_map, length_seq.
  - rewrite call_eq in H.
    destruct (call_rows _ _ _ _ _ nt X0) as [rows|] eqn:E;
      [simpl in H|done].
    injection H as <-. constructor; [done|].
    by eapply call_rows_row_length.
Qed.

(** X5.  The history is a full rectangle.  [GCM] returns [nt] rows and
    [nt] time entries, the two [__call__] methods [nt + 1] of each, and
    every row has the length of the initial condition: also a row left
    unset, and also a row written from a state of length one that the
    step scheme returned. *)
Theorem X5_history_rectangular :
  (forall (X0 : ndarray) (F dt : float) (nt : nat) (param : list float)
          (hist : ndarray2) (time : ndarray),
      GCM X0 F dt nt param = Some (hist, time) ->
      length hist = nt /\ length time = nt
      /\ Forall (fun row => length row = length X0) hist)
  /\ (forall (P : Type) (self : GCM_without_parameterization.t P)
          (X0 : ndarray) (dt : float) (nt : nat) (param : P)
          (hist : ndarray2) (time : ndarray),
      GCM_without_parameterization.__call__ self X0 dt nt param
        = Some (hist, time) ->
      length hist = nt + 1 /\ length time = nt + 1
      /\ Forall (fun row => length row = length X0) hist)
  /\ (forall (P : Type) (self : GCM_network.t P)
          (X0 : ndarray) (dt : float) (nt : nat) (param : P)
          (hist : ndarray2) (time : ndarray),
      GCM_network.__call__ self X0 dt nt param = Some (hist, time) ->
      length hist = nt + 1 /\ length time = nt + 1
      /\ Forall (fun row => length row = length X0) hist).
Proof.
  split; [|split].
  - intros X0 F dt nt param hist time H.
    apply GCM_inv in H. injection H as -> ->.
    pose proof (GCM_states_length F dt param nt X0) as Hle.
    split; [|split].
    + rewrite length_app, length_replicate. lia.
    + rewrite length_app, !length_map, !length_seq. lia.
    + apply Forall_app. split; [apply GCM_states_row_length|].
      apply Forall_replicate. apply length_replicate.
  - intros P self X0 dt nt param hist time H. by eapply call_rectangular.
  - intros P self X0 dt nt param hist time H. by eapply call_rectangular.
Qed.

Lemma X5_history_rectangular_witness :
  (exists hist time,
      GCM Examples.X_rest 1500 0.5 3 default_param = Some (hist, time)
      /\ length hist = 3 /\ length time = 3
      /\ Forall (fun row => length row = length Examples.X_rest) hist)
  /\ (exists hist time,
      GCM_without_parameterization.__call__
        {| GCM_without_parameterization.F := 18%float;
           GCM_without_parameterization.time_stepping :=
             Runs.scheme_scalar |}
        Examples.X_init 0.125%float 2 default_param = Some (hist, time)
      /\ length hist = 2 + 1 /\ length time = 2 + 1
      /\ Forall (fun row => length row = length Examples.X_init) hist)
  /\ (exists hist time,
      GCM_network.__call__ Examples.gcm_linear_net
        Examples.X_init 0.125%float 2 (Examples.linear_network 0.5 1)
        = Some (hist, time)
      /\ length hist = 2 + 1 /\ length time = 2 + 1
      /\ Forall (fun row => length row = length Examples.X_init) hist).
Proof.
  destruct X5_history_rectangular as (H1 & H2 & H3).
  split; [|split].
  - destruct (GCM Examples.X_rest 1500 0.5 3 default_param)
      as [[hist time]|] eqn:E; [|vm_compute in E; discriminate E].
    exists hist, time. split; [reflexivity|]. by eapply H1.
  - destruct (GCM_without_parameterization.__call__ _
                Examples.X_init 0.125%float 2 default_param)
      as [[hist time]|] eqn:E; [|vm_compute in E; discriminate E].
    exists hist, time. split; [reflexivity|]. by eapply H2.
  - destruct (GCM_network.__call__ Examples.gcm_linear_net
                Examples.X_init 0.125%float 2
                (Examples.linear_network 0.5 1))
      as [[hist time]|] eqn:E; [|vm_compute in E; discriminate E].
    exists hist, time. split; [reflexivity|]. by eapply H3.
Defined.

(** ** The time axis *)

Lemma time_axis_lookup (dt : float) (n i : nat) :
  i < n -> np.time_axis dt n !! i = Some (dt * np.float_of_nat i)%float.
Proof.
  intros Hi. unfold np.time_axis.
  by rewrite map_fmap, list_lookup_fmap, lookup_seq_lt.
Qed.

Lemma call_aligned {P : Type} (time_stepping : stepper P)
    (rhs : @tendency P) (X0 : ndarray) (dt : float) (nt : nat) (param : P)
    (hist : ndarray2) (time : ndarray) :
  call time_stepping rhs X0 dt nt param = Some (hist, time) ->
  forall i, i <= nt ->
    exists Xi row,
      call_iter time_stepping rhs dt param i X0 = Some Xi
      /\ np.stretch (length X0) Xi = Some row
      /\ hist !! i = Some row
      /\ time !! i = Some (dt * np.float_of_nat i)%float.
Proof.
  intros H i Hi.
  pose proof (call_shape _ _ _ _ _ _ _ _ H) as (_ & H0 & Ht).
  assert (time !! i = Some (dt * np.float_of_nat i)%float) as Hti
    by (rewrite Ht; apply time_axis_lookup; lia).
  destruct i as [|i].
  - exists X0, X0. split; [done|]. split; [by apply stretch_same|done].
  - destruct (call_no_guard _ _ _ _ _ _ _ _ H i) as (Xi & row & ? & ? & ?);
      [lia|].
    by exists Xi, row.
Qed.

(** X6.  The two [__call__] methods return the time axis
    [dt * np.arange(nt + 1)] as it was created: the values the loop
    assigns are the values the entries already have.  Entry [i] is
    [dt * i], and row [i] of the history is the state after [i] calls of
    the step scheme: the initial condition at time [dt * 0], and so on. *)
Theorem X6_call_time_aligned :
  (forall (P : Type) (self : GCM_without_parameterization.t P)
          (X0 : ndarray) (dt : float) (nt : nat) (param : P)
          (hist : ndarray2) (time : ndarray),
      GCM_without_parameterization.__call__ self X0 dt nt param
        = Some (hist, time) ->
      time = np.time_axis dt (nt + 1)
      /\ forall i, i <= nt ->
           exists Xi row,
             call_iter (GCM_without_parameterization.time_stepping self)
               (GCM_without_parameterization.rhs self) dt param i X0
               = Some Xi
             /\ np.stretch (length X0) Xi = Some row
             /\ hist !! i = Some row
             /\ time !! i = Some (dt * np.float_of_nat i)%float)
  /\ (forall (P : Type) (self : GCM_network.t P)
          (X0 : ndarray) (dt : float) (nt : nat) (param : P)
          (hist : ndarray2) (time : ndarray),
      GCM_network.__call__ self X0 dt nt param = Some (hist, time) ->
      time = np.time_axis dt (nt + 1)
      /\ forall i, i <= nt ->
           exists Xi row,
             call_iter (GCM_network.time_stepping self)
               (GCM_network.rhs self) dt param i X0 = Some Xi
             /\ np.stretch (length X0) Xi = Some row
             /\ hist !! i = Some row
             /\ time !! i = Some (dt * np.float_of_nat i)%float).
Proof.
  split.
  - intros P self X0 dt nt param hist time H. split.
    + by apply call_shape in H as (_ & _ & ?).
    + by eapply call_aligned.
  - intros P self X0 dt nt param hist time H. split.
    + by apply call_shape in H as (_ & _ & ?).
    + by eapply call_aligned.
Qed.

Lemma X6_call_time_aligned_witness :
  (exists hist time,
      GCM_without_parameterization.__call__ Examples.gcm_no_param
        Examples.X_init 0.125%float 2 default_param = Some (hist, time)
      /\ time = [0; 0.125; 0.25]%float
      /\ time !! 2 = Some (0.125 * np.float_of_nat 2)%float)
  /\ (exists hist time,
      GCM_network.__call__ Examples.gcm_linear_net
        Examples.X_init 0.125%float 2 (Examples.linear_network 0.5 1)
        = Some (hist, time)
      /\ time = [0; 0.125; 0.25]%float
      /\ time !! 2 = Some (0.125 * np.float_of_nat 2)%float).
Proof.
  destruct X6_call_time_aligned as (H1 & H2).
  split.
  - destruct (GCM_without_parameterization.__call__ Examples.gcm_no_param
                Examples.X_init 0.125%float 2 default_param)
      as [[hist time]|] eqn:E; [|vm_compute in E; discriminate E].
    destruct (H1 _ _ _ _ _ _ hist time E) as [Ht Hal].
    destruct (Hal 2 ltac:(lia)) as (Xi & row & _ & _ & _ & Ht2).
    exists hist, time. split; [reflexivity|]. split; [exact Ht|exact Ht2].
  - destruct (GCM_network.__call__ Examples.gcm_linear_net
                Examples.X_init 0.125%float 2
                (Examples.linear_network 0.5 1))
      as [[hist time]|] eqn:E; [|vm_compute in E; discriminate E].
    destruct (H2 _ _ _ _ _ _ hist time E) as [Ht Hal].
    destruct (Hal 2 ltac:(lia)) as (Xi & row & _ & _ & _ & Ht2).
    exists hist, time. split; [reflexivity|]. split; [exact Ht|exact Ht2].
Defined.

(** X7.  The time array of [GCM].  With [m] the number of rows stored:
    entry [i < m] is [dt * (i + 1)], the time of the state in row [i];
    entry [i >= m], beside a row left unset, is the [dt * i] the array
    was created with.  So after an early stop the entries do not go on
    from the last stored one: when [0 < m < nt], entries [m - 1] and [m]
    are both [dt * m]. *)
Theorem X7_GCM_time_entries (X0 : ndarray) (F dt : float) (nt : nat)
    (param : list float) (hist : ndarray2) (time : ndarray) :
  GCM X0 F dt nt param = Some (hist, time) ->
  exists m, m <= nt
    /\ (forall i, i < m ->
          time !! i = Some (dt * np.float_of_nat (i + 1))%float
          /\ exists Xi, hist !! i = Some Xi
                        /\ GCM_iter F dt param (S i) X0 = Some Xi)
    /\ (forall i, m <= i < nt ->
          time !! i = Some (dt * np.float_of_nat i)%float
          /\ hist !! i = Some (np.nan_row (length X0)))
    /\ (0 < m < nt ->
          time !! (m - 1) = Some (dt * np.float_of_nat m)%float
          /\ time !! m = Some (dt * np.float_of_nat m)%float).
Proof.
  intros H. apply GCM_inv in H. unfold GCM_result in H.
  injection H as -> ->.
  pose proof (GCM_states_length F dt param nt X0) as Hle.
  set (sts := GCM_states F dt param nt X0) in *.
  assert (forall i, i < length sts ->
            (map (stamp dt) (seq 0 (length sts))
               ++ map (fun i => (dt * np.float_of_nat i)%float)
                    (seq (length sts) (nt - length sts))) !! i
            = Some (dt * np.float_of_nat (i + 1))%float) as Hset.
  { intros i Hi.
    rewrite lookup_app_l by (by rewrite length_map, length_seq).
    by rewrite map_fmap, list_lookup_fmap, lookup_seq_lt. }
  assert (forall i, length sts <= i < nt ->
            (map (stamp dt) (seq 0 (length sts))
               ++ map (fun i => (dt * np.float_of_nat i)%float)
                    (seq (length sts) (nt - length sts))) !! i
            = Some (dt * np.float_of_nat i)%float) as Hunset.
  { intros i Hi.
    rewrite lookup_app_r by (rewrite length_map, length_seq; lia).
    rewrite length_map, length_seq.
    rewrite map_fmap, list_lookup_fmap, lookup_seq_lt by lia.
    simpl. do 3 f_equal. lia. }
  exists (length sts). split; [done|]. split; [|split].
  - intros i Hi. split; [by apply Hset|].
    destruct (lookup_lt_is_Some_2 sts i Hi) as [Xi HXi].
    exists Xi. split; [by apply lookup_app_l_Some|].
    by apply GCM_states_lookup in HXi as [? _].
  - intros i Hi. split; [by apply Hunset|].
    rewrite lookup_app_r by lia.
    apply lookup_replicate_2. lia.
  - intros Hm. split.
    + rewrite Hset by lia. do 3 f_equal. lia.
    + apply Hunset. lia.
Qed.

Lemma X7_GCM_time_entries_witness :
  exists hist time m,
    GCM Examples.X_rest 1500 0.5 3 default_param = Some (hist, time)
    /\ m <= 3
    /\ (0 < m < 3 ->
          time !! (m - 1) = Some (0.5 * np.float_of_nat m)%float
          /\ time !! m = Some (0.5 * np.float_of_nat m)%float).
Proof.
  destruct (GCM Examples.X_rest 1500 0.5 3 default_param)
    as [[hist time]|] eqn:E; [|vm_compute in E; discriminate E].
  destruct (X7_GCM_time_entries _ _ _ _ _ hist time E)
    as (m & Hm & _ & _ & Hdup).
  exists hist, time, m. split; [reflexivity|]. split; [exact Hm|exact Hdup].
Defined.

(** ** Exceptions of the step scheme and of the row assignment *)

Section CallErrors.
Context {P : Type}.
Variable time_stepping : stepper P.
Variable rhs : @tendency P.

Lemma call_raises (X0 : ndarray) (dt : float) (nt : nat) (param : P)
    (i : nat) :
  i < nt ->
  call_iter time_stepping rhs dt param (S i) X0 = None ->
  call time_stepping rhs X0 dt nt param = None.
Proof.
  intros Hi Hit.
  destruct (call time_stepping rhs X0 dt nt param) as [[hist time]|] eqn:E;
    [|done].
  destruct (call_no_guard _ _ _ _ _ _ _ _ E i Hi) as (Xi & row & H & _).
  congruence.
Qed.

Lemma call_wrong_length (X0 : ndarray) (dt : float) (nt : nat) (param : P)
    (i : nat) (Xi : ndarray) :
  i < nt ->
  call_iter time_stepping rhs dt param (S i) X0 = Some Xi ->
  length Xi <> length X0 -> length Xi <> 1 ->
  call time_stepping rhs X0 dt nt param = None.
Proof.
  intros Hi Hit HK H1.
  destruct (call time_stepping rhs X0 dt nt param) as [[hist time]|] eqn:E;
    [|done].
  destruct (call_no_guard _ _ _ _ _ _ _ _ E i Hi)
    as (Xi' & row & H & Hrow & _).
  assert (Xi' = Xi) as -> by congruence.
  unfold np.stretch in Hrow. rewrite decide_False in Hrow by done.
  by destruct Xi as [|x [|y Xi]].
Qed.

Lemma call_stretches (X0 : ndarray) (dt : float) (nt : nat) (param : P)
    (hist : ndarray2) (time : ndarray) (i : nat) (x : float) :
  i < nt ->
  call_iter time_stepping rhs dt param (S i) X0 = Some [x] ->
  call time_stepping rhs X0 dt nt param = Some (hist, time) ->
  hist !! S i = Some (replicate (length X0) x).
Proof.
  intros Hi Hit E.
  destruct (call_no_guard _ _ _ _ _ _ _ _ E i Hi)
    as (Xi' & row & H & Hrow & Hh).
  assert (Xi' = [x]) as -> by congruence.
  rewrite Hh. f_equal.
  unfold np.stretch in Hrow. case_decide as HK.
  - injection Hrow as <-. simpl in HK. by rewrite <- HK.
  - by injection Hrow as <-.
Qed.

End CallErrors.

(** X8.  Exceptions in the two [__call__] methods.  When the step scheme
    (or, through it, the tendency or the network) raises at any of the
    [nt] steps, the call raises: no partial history is returned.  When
    the scheme returns a state whose length is neither the length of the
    initial condition nor one, the assignment [hist[n + 1] = X] raises.
    A state of length one is accepted, and written to every column of
    its row.  Each of the three holds of both classes. *)
Theorem X8_call_exceptions :
  (forall (P : Type) (self : GCM_without_parameterization.t P)
          (X0 : ndarray) (dt : float) (nt : nat) (param : P) (i : nat),
      i < nt ->
      call_iter (GCM_without_parameterization.time_stepping self)
        (GCM_without_parameterization.rhs self) dt param (S i) X0 = None ->
      GCM_without_parameterization.__call__ self X0 dt nt param = None)
  /\ (forall (P : Type) (self : GCM_network.t P)
          (X0 : ndarray) (dt : float) (nt : nat) (param : P) (i : nat),
      i < nt ->
      call_iter (GCM_network.time_stepping self)
        (GCM_network.rhs self) dt param (S i) X0 = None ->
      GCM_network.__call__ self X0 dt nt param = None)
  /\ (forall (P : Type) (self : GCM_without_parameterization.t P)
          (X0 : ndarray) (dt : float) (nt : nat) (param : P)
          (i : nat) (Xi : ndarray),
      i < nt ->
      call_iter (GCM_without_parameterization.time_stepping self)
        (GCM_without_parameterization.rhs self) dt param (S i) X0
        = Some Xi ->
      length Xi <> length X0 -> length Xi <> 1 ->
      GCM_without_parameterization.__call__ self X0 dt nt param = None)
  /\ (forall (P : Type) (self : GCM_network.t P)
          (X0 : ndarray) (dt : float) (nt : nat) (param : P)
          (i : nat) (Xi : ndarray),
      i < nt ->
      call_iter (GCM_network.time_stepping self)
        (GCM_network.rhs self) dt param (S i) X0 = Some Xi ->
      length Xi <> length X0 -> length Xi <> 1 ->
      GCM_network.__call__ self X0 dt nt param = None)
  /\ (forall (P : Type) (self : GCM_without_parameterization.t P)
          (X0 : ndarray) (dt : float) (nt : nat) (param : P)
          (hist : ndarray2) (time : ndarray) (i : nat) (x : float),
      i < nt ->
      call_iter (GCM_without_parameterization.time_stepping self)
        (GCM_without_parameterization.rhs self) dt param (S i) X0
        = Some [x] ->
      GCM_without_parameterization.__call__ self X0 dt nt param
        = Some (hist, time) ->
      hist !! S i = Some (replicate (length X0) x))
  /\ (forall (P : Type) (self : GCM_network.t P)
          (X0 : ndarray) (dt : float) (nt : nat) (param : P)
          (hist : ndarray2) (time : ndarray) (i : nat) (x : float),
      i < nt ->
      call_iter (GCM_network.time_stepping self)
        (GCM_network.rhs self) dt param (S i) X0 = Some [x] ->
      GCM_network.__call__ self X0 dt nt param = Some (hist, time) ->
      hist !! S i = Some (replicate (length X0) x)).
Proof.
  split; [|split; [|split; [|split; [|split]]]].
  - intros P self X0 dt nt param i. apply call_raises.
  - intros P self X0 dt nt param i. apply call_raises.
  - intros P self X0 dt nt param i Xi. apply call_wrong_length.
  - intros P self X0 dt nt param i Xi. apply call_wrong_length.
  - intros P self X0 dt nt param hist time i x. apply call_stretches.
  - intros P self X0 dt nt param hist time i x. apply call_stretches.
Qed.

Lemma X8_call_exceptions_witness :
  GCM_without_parameterization.__call__ (Runs.gcm_with Runs.scheme_raises)
    Examples.X_init 0.125%float 2 default_param = None
  /\ GCM_network.__call__ Runs.gcm_net_raises
       Examples.X_init 0.125%float 2 Runs.network_raises = None
  /\ (length (0%float :: Examples.X_init) <> length Examples.X_init
      /\ GCM_without_parameterization.__call__
           (Runs.gcm_with Runs.scheme_longer)
           Examples.X_init 0.125%float 2 default_param = None)
  /\ (length (0%float :: Examples.X_init) <> length Examples.X_init
      /\ GCM_network.__call__ (Runs.gcm_net_with Runs.scheme_longer)
           Examples.X_init 0.125%float 2 default_param = None)
  /\ (exists hist time,
        GCM_without_parameterization.__call__
          (Runs.gcm_with Runs.scheme_scalar)
          Examples.X_init 0.125%float 2 default_param = Some (hist, time)
        /\ hist !! 1 = Some (replicate (length Examples.X_init) 7%float))
  /\ (exists hist time,
        GCM_network.__call__ (Runs.gcm_net_with Runs.scheme_scalar)
          Examples.X_init 0.125%float 2 default_param = Some (hist, time)
        /\ hist !! 1 = Some (replicate (length Examples.X_init) 7%float)).
Proof.
  destruct X8_call_exceptions as (H1 & H2 & H3 & H4 & H5 & H6).
  split; [|split; [|split; [|split; [|split]]]].
  - apply (H1 _ (Runs.gcm_with Runs.scheme_raises) Examples.X_init
             0.125%float 2 default_param 0); [lia|reflexivity].
  - apply (H2 _ Runs.gcm_net_raises Examples.X_init
             0.125%float 2 Runs.network_raises 0); [lia|reflexivity].
  - split; [simpl; lia|].
    apply (H3 _ (Runs.gcm_with Runs.scheme_longer) Examples.X_init
             0.125%float 2 default_param 0 (0%float :: Examples.X_init));
      [lia|reflexivity|simpl; lia|simpl; lia].
  - split; [simpl; lia|].
    apply (H4 _ (Runs.gcm_net_with Runs.scheme_longer) Examples.X_init
             0.125%float 2 default_param 0 (0%float :: Examples.X_init));
      [lia|reflexivity|simpl; lia|simpl; lia].
  - destruct (GCM_without_parameterization.__call__
                (Runs.gcm_with Runs.scheme_scalar)
                Examples.X_init 0.125%float 2 default_param)
      as [[hist time]|] eqn:E; [|vm_compute in E; discriminate E].
    exists hist, time. split; [reflexivity|].
    apply (H5 _ (Runs.gcm_with Runs.scheme_scalar) Examples.X_init
             0.125%float 2 default_param hist time 0 7%float);
      [lia|reflexivity|exact E].
  - destruct (GCM_network.__call__ (Runs.gcm_net_with Runs.scheme_scalar)
                Examples.X_init 0.125%float 2 default_param)
      as [[hist time]|] eqn:E; [|vm_compute in E; discriminate E].
    exists hist, time. split; [reflexivity|].
    apply (H6 _ (Runs.gcm_net_with Runs.scheme_scalar) Examples.X_init
             0.125%float 2 default_param hist time 0 7%float);
      [lia|reflexivity|exact E].
Defined.

(** X9.  [GCM_network.__call__] ignores [param]: the network that acts
    is the one given to the constructor, [self.network]; [rhs] does not
    look at the argument through which [param] reaches it.  For a step
    scheme that only passes its extra argument on, two calls that differ
    in [param] alone return the same arrays. *)
Theorem X9_network_param_ignored (P : Type) (self : GCM_network.t P)
    (X0 : ndarray) (dt : float) (nt : nat) (p1 p2 : P) :
  forwards_params (GCM_network.time_stepping self) ->
  GCM_network.__call__ self X0 dt nt p1
  = GCM_network.__call__ self X0 dt nt p2.
Proof.
  intros Hf. unfold GCM_network.__call__.
  by apply call_param.
Qed.

Lemma X9_network_param_ignored_witness :
  forwards_params (GCM_network.time_stepping Examples.gcm_linear_net)
  /\ GCM_network.__call__ Examples.gcm_linear_net
       Examples.X_init 0.125%float 2 (Examples.linear_network 0.5 1)
     = GCM_network.__call__ Examples.gcm_linear_net
         Examples.X_init 0.125%float 2 Examples.scalar_network
  /\ is_Some (GCM_network.__call__ Examples.gcm_linear_net
                Examples.X_init 0.125%float 2 Examples.scalar_network).
Proof.
  split; [apply RK4_forwards|]. split.
  - apply (X9_network_param_ignored _ Examples.gcm_linear_net
             Examples.X_init 0.125%float 2
             (Examples.linear_network 0.5 1) Examples.scalar_network).
    apply RK4_forwards.
  - vm_compute. by eexists.
Defined.

(** ** The uniform state [X[k] = F] *)

Lemma SFleb_not_ltb (x y : spec_float) :
  SFleb x y = true -> SFltb y x = false.
Proof.
  unfold SFltb, SFleb.
  destruct x as [sx|sx| |sx mx ex], y as [sy|sy| |sy my ey];
    simpl; try done;
    repeat match goal with s : bool |- _ => destruct s end;
    simpl; try done;
    intros H1; cmp_cases; simpl in *; try done; try lia.
Qed.

Lemma leb_not_ltb (a b : float) :
  (a <=? b)%float = true -> (b <? a)%float = false.
Proof. rewrite leb_spec, ltb_spec. apply SFleb_not_ltb. Qed.

Lemma finite_nonzero_spec (F : float) :
  is_finite F = true -> is_zero F = false ->
  exists s m e, Prim2SF F = S754_finite s m e.
Proof.
  intros Hf Hz. apply is_finite_spec in Hf.
  unfold is_zero in Hz. rewrite FloatAxioms.eqb_spec in Hz.
  change (Prim2SF zero) with (S754_zero false) in Hz.
  destruct (Prim2SF F) as [s|s| |s m e]; try done.
  by exists s, m, e.
Qed.

(** The tendency of the uniform state: [- F * (F - F) - F + F] is zero. *)
Lemma steady_tendency (F : float) :
  is_finite F = true -> is_zero F = false ->
  (- F * (F - F) - F + F)%float = 0%float.
Proof.
  intros Hf Hz.
  destruct (finite_nonzero_spec F Hf Hz) as (s & m & e & HF).
  apply Prim2SF_inj.
  rewrite add_spec, sub_spec, mul_spec, sub_spec, opp_spec, HF.
  change (Prim2SF 0) with (S754_zero false).
  unfold SF64sub at 2. unfold SFsub at 1. rewrite Z.sub_diag.
  simpl binary_normalize.
  unfold SFopp, SF64mul, SFmul, SF64sub, SFsub, SF64add, SFadd.
  replace (_ + _)%Z with 0%Z; [done|].
  destruct s; simpl; lia.
Qed.

Lemma steady_update (F dt : float) :
  is_finite F = true -> is_zero F = false -> is_finite dt = true ->
  (F + dt * (0 - 0))%float = F.
Proof.
  intros Hf Hz Hdt.
  destruct (finite_nonzero_spec F Hf Hz) as (s & m & e & HF).
  apply is_finite_spec in Hdt.
  apply Prim2SF_inj.
  rewrite add_spec, mul_spec, HF. rewrite sub_zero_r.
  change (Prim2SF 0) with (S754_zero false).
  destruct (Prim2SF dt) as [sd|sd| |sd md ed]; try done.
Qed.

Lemma L96_entry_uniform (F : float) (K k : nat) :
  k < K ->
  L96_entry (replicate K F) F k = (- F * (F - F) - F + F)%float.
Proof.
  intros Hk. unfold L96_entry. rewrite length_replicate.
  assert (forall i, default 0%float (replicate K F !! (i mod K)) = F) as H.
  { intros i. rewrite lookup_replicate_2; [done|].
    apply Nat.mod_upper_bound. lia. }
  by rewrite !H.
Qed.

Lemma GCM_step_uniform (F dt : float) (param : list float) (K : nat) :
  is_finite F = true -> is_zero F = false -> is_finite dt = true ->
  horner param F = 0%float ->
  GCM_step F dt param (replicate K F) = Some (replicate K F).
Proof.
  intros Hf Hz Hdt Hp.
  destruct (GCM_step F dt param (replicate K F)) as [X'|] eqn:E;
    [|by rewrite GCM_step_eq in E].
  f_equal. apply list_eq. intros k.
  pose proof (GCM_step_length _ _ _ _ _ E) as HL.
  rewrite length_replicate in HL.
  destruct (decide (k < K)) as [Hk|Hk].
  - rewrite (GCM_step_lookup _ _ _ _ _ k F E)
      by by apply lookup_replicate_2.
    rewrite lookup_replicate_2 by done. f_equal.
    rewrite L96_entry_uniform, steady_tendency, Hp by done.
    by apply steady_update.
  - rewrite !lookup_ge_None_2; [done|rewrite length_replicate; lia|lia].
Qed.

Lemma maximum_same (a : float) : np.maximum a a = a.
Proof.
  unfold np.maximum. destruct (is_nan a); [done|].
  by destruct (a <? a)%float.
Qed.

Lemma diverged_uniform (F : float) (K : nat) :
  diverged (replicate (S K) F) = Some (1e3 <? abs F)%float.
Proof.
  unfold diverged. simpl. do 2 f_equal.
  induction K as [|K IH]; simpl; [done|].
  by rewrite maximum_same.
Qed.

Lemma GCM_states_fixed (F dt : float) (param : list float) (X : ndarray) :
  GCM_step F dt param X = Some X -> diverged X = Some false ->
  forall steps, GCM_states F dt param steps X = replicate steps X.
Proof.
  intros Hs Hd. induction steps as [|steps IH]; simpl; [done|].
  by rewrite Hs, Hd, IH.
Qed.

Lemma call_rows_fixed {P : Type} (time_stepping : stepper P)
    (rhs : @tendency P) (dt : float) (param : P) (X : ndarray) :
  time_stepping rhs dt X param = Some X ->
  forall steps,
    call_rows time_stepping rhs dt param (length X) steps X
    = Some (replicate steps X).
Proof.
  intros Hs. induction steps as [|steps IH]; simpl; [done|].
  rewrite Hs. simpl. rewrite stretch_same by done. simpl.
  by rewrite IH.
Qed.

(** X10.  The uniform state [X[k] = F] is a fixed point of the stepping,
    exactly: for a finite non-zero forcing and a finite step size,
    [L96_eq1_xdot] is zero there and the update returns the state
    unchanged.  [GCM] with [param=[0]], started there with [abs(F)] within
    the threshold, stores [nt] copies of the state, and
    [GCM_without_parameterization] with the [EulerFwd] scheme returns
    [nt + 1] copies. *)
Theorem X10_uniform_state_fixed (F dt : float) (K nt : nat) :
  is_finite F = true -> is_zero F = false -> is_finite dt = true ->
  L96_eq1_xdot (replicate K F) F = replicate K 0%float
  /\ ((abs F <=? 1e3)%float = true ->
      GCM (replicate (S K) F) F dt nt default_param
      = Some (replicate nt (replicate (S K) F),
              map (stamp dt) (seq 0 nt)))
  /\ (forall (P : Type) (p : P),
        GCM_without_parameterization.__call__
          {| GCM_without_parameterization.F := F;
             GCM_without_parameterization.time_stepping := EulerFwd |}
          (replicate K F) dt nt p
        = Some (replicate (nt + 1) (replicate K F),
                np.time_axis dt (nt + 1))).
Proof.
  intros Hf Hz Hdt. split; [|split].
  - apply list_eq. intros k. destruct (decide (k < K)) as [Hk|Hk].
    + rewrite L96_eq1_xdot_lookup by (by rewrite length_replicate).
      rewrite lookup_replicate_2 by done.
      by rewrite L96_entry_uniform, steady_tendency.
    + rewrite !lookup_ge_None_2; [done| |];
        rewrite ?length_L96_eq1_xdot, length_replicate; lia.
  - intros Hle. rewrite GCM_eq by done. unfold GCM_result.
    rewrite GCM_states_fixed.
    + rewrite length_replicate. replace (nt - nt) with 0 by lia.
      simpl. by rewrite !app_nil_r.
    + apply GCM_step_uniform; try done.
      change (horner default_param F) with (0 * F + 0)%float.
      by apply zero_mul_add.
    + rewrite diverged_uniform. f_equal. by apply leb_not_ltb.
  - intros P p. unfold GCM_without_parameterization.__call__. simpl.
    rewrite call_eq.
    pose proof (call_rows_fixed EulerFwd
                  (GCM_without_parameterization.rhs
                     {| GCM_without_parameterization.F := F;
                        GCM_without_parameterization.time_stepping :=
                          @EulerFwd P |})
                  dt p (replicate K F)) as H.
    rewrite EulerFwd_rhs in H. simpl in H.
    rewrite H by (by apply GCM_step_uniform).
    simpl. replace (nt + 1) with (S nt) by lia. done.
Qed.

Lemma X10_uniform_state_fixed_witness :
  is_finite 18 = true /\ is_zero 18 = false /\ is_finite 0.125 = true
  /\ (abs 18 <=? 1e3)%float = true
  /\ L96_eq1_xdot (replicate 8 18%float) 18 = replicate 8 0%float
  /\ GCM (replicate 8 18%float) 18 0.125 3 default_param
     = Some (replicate 3 (replicate 8 18%float),
             map (stamp 0.125) (seq 0 3))
  /\ GCM_without_parameterization.__call__
       {| GCM_without_parameterization.F := 18%float;
          GCM_without_parameterization.time_stepping := EulerFwd |}
       (replicate 8 18%float) 0.125%float 3 default_param
     = Some (replicate (3 + 1) (replicate 8 18%float),
             np.time_axis 0.125 (3 + 1)).
Proof.
  do 4 (split; [reflexivity|]).
  destruct (X10_uniform_state_fixed 18%float 0.125%float 8 3
              eq_refl eq_refl eq_refl) as (H1 & _ & H3).
  destruct (X10_uniform_state_fixed 18%float 0.125%float 7 3
              eq_refl eq_refl eq_refl) as (_ & H2 & _).
  split; [exact H1|]. split; [exact (H2 eq_refl)|]. apply H3.
Defined.

(** ** Continuing a run *)

Lemma GCM_states_app (F dt : float) (param : list float) (n2 : nat) :
  forall (n1 : nat) (X : ndarray),
    length (GCM_states F dt param n1 X) = n1 ->
    GCM_states F dt param (n1 + n2) X
    = GCM_states F dt param n1 X
      ++ GCM_states F dt param n2
           (default X (last (GCM_states F dt param n1 X))).
Proof.
  induction n1 as [|n1 IH]; intros X; simpl; [done|].
  destruct (GCM_step F dt param X) as [X'|]; [|done].
  destruct (diverged X') as [[|]|]; try done.
  simpl. intros [= Hlen]. rewrite (IH X' Hlen). do 2 f_equal.
  rewrite last_cons. by destruct (last (GCM_states F dt param n1 X')).
Qed.

Lemma last_unset (sts : list ndarray) (j K : nat) (Xl : ndarray) :
  last (sts ++ replicate j (np.nan_row (S K))) = Some Xl ->
  existsb is_nan Xl = false -> j = 0.
Proof.
  destruct j as [|j]; [done|]. intros Hl Hn.
  replace (S j) with (j + 1) in Hl by lia.
  rewrite replicate_add, app_assoc in Hl. simpl in Hl.
  rewrite last_snoc in Hl. injection Hl as <-. done.
Qed.

(** X11.  A run of [GCM] can be continued.  When the last row of a run
    of [n1] steps holds no NaN (it is a stored state, and so are all the
    rows before it), the history of a run of [n1 + n2] steps from the
    same initial condition is that history followed by the history of a
    run of [n2] steps started from that last row. *)
Theorem X11_GCM_continues (X0 Xl : ndarray) (F dt : float) (n1 n2 : nat)
    (param : list float) (h1 h2 : ndarray2) (t1 t2 : ndarray) :
  GCM X0 F dt n1 param = Some (h1, t1) ->
  last h1 = Some Xl -> existsb is_nan Xl = false ->
  GCM Xl F dt n2 param = Some (h2, t2) ->
  exists t, GCM X0 F dt (n1 + n2) param = Some (h1 ++ h2, t).
Proof.
  intros H1 Hl Hn H2.
  assert (X0 <> []) as HX0.
  { intros ->. rewrite GCM_empty in H1. destruct n1; [|done].
    by injection H1 as <- <-. }
  apply GCM_inv in H1. unfold GCM_result in H1. injection H1 as -> ->.
  destruct (length X0) as [|K] eqn:HK; [by destruct X0|].
  pose proof (GCM_states_length F dt param n1 X0) as Hle.
  assert (n1 - length (GCM_states F dt param n1 X0) = 0) as Hfull
    by by eapply last_unset.
  rewrite Hfull in *. simpl in Hl. rewrite app_nil_r in Hl.
  assert (length (GCM_states F dt param n1 X0) = n1) as Hlen by lia.
  assert (length Xl = S K) as HXl.
  { pose proof (GCM_states_row_length F dt param n1 X0) as Hrows.
    rewrite Forall_forall in Hrows. rewrite <- HK.
    apply Hrows. apply last_Some_elem_of in Hl. done. }
  apply GCM_inv in H2. unfold GCM_result in H2. injection H2 as -> ->.
  rewrite GCM_eq by done. unfold GCM_result.
  rewrite (GCM_states_app F dt param n2 n1 X0 Hlen), Hl. simpl.
  rewrite HK, HXl, length_app, Hlen.
  replace (n1 + n2 - (n1 + length (GCM_states F dt param n2 Xl)))
    with (n2 - length (GCM_states F dt param n2 Xl)) by lia.
  simpl. rewrite app_nil_r, <- app_assoc. by eexists.
Qed.

Lemma X11_GCM_continues_witness :
  exists h1 t1 Xl h2 t2 t,
    GCM Examples.X_init 18 0.125 2 default_param = Some (h1, t1)
    /\ last h1 = Some Xl /\ existsb is_nan Xl = false
    /\ GCM Xl 18 0.125 2 default_param = Some (h2, t2)
    /\ GCM Examples.X_init 18 0.125 (2 + 2) default_param
       = Some (h1 ++ h2, t).
Proof.
  destruct (GCM Examples.X_init 18 0.125 2 default_param)
    as [[h1 t1]|] eqn:E1; [|vm_compute in E1; discriminate E1].
  assert (exists Xl, last h1 = Some Xl /\ existsb is_nan Xl = false)
    as (Xl & Hl & Hn).
  { vm_compute in E1. injection E1 as <- <-. eexists.
    split; vm_compute; reflexivity. }
  destruct (GCM Xl 18 0.125 2 default_param) as [[h2 t2]|] eqn:E2.
  - destruct (X11_GCM_continues _ _ _ _ _ _ _ h1 h2 t1 t2 E1 Hl Hn E2)
      as [t Ht].
    exists h1, t1, Xl, h2, t2, t.
    split; [reflexivity|]. split; [exact Hl|]. split; [exact Hn|].
    split; [exact E2|exact Ht].
  - vm_compute in E1. injection E1 as <- <-.
    vm_compute in Hl. injection Hl as <-.
    vm_compute in E2. discriminate E2.
Defined.

(** ** The arrays returned are new *)

Lemma run_fresh (s s' : Store.store) (K : nat) r out
    (h t : Store.loc) :
  Store.run_result s K r out -> out = Some ((h, t), s') ->
  s !! h = None /\ s !! t = None /\ h <> t
  /\ is_Some (s' !! h) /\ is_Some (s' !! t).
Proof.
  intros Hr Hout.
  destruct (run_result_Some _ _ _ _ _ _ Hr Hout)
    as (rows & tm & _ & [= -> ->] & Hh & Ht).
  split; [apply lookup_ge_None_2; lia|].
  split; [by apply lookup_ge_None_2|].
  split; [lia|]. by split; eexists.
Qed.

(** X12.  The two arrays a run returns are new objects: they are not in
    the store the call started from, so they alias neither the initial
    condition nor [param] nor the arrays of an earlier run, and they are
    two different arrays.  A later run leaves the arrays of an earlier
    run as they are. *)
Theorem X12_results_are_new :
  (forall (s s' : Store.store) (X0 param : Store.loc)
          (x0 : ndarray) (p : list float) (F dt : float) (nt : nat)
          (h t : Store.loc),
      s !! X0 = Some (Store.Vec x0) -> s !! param = Some (Store.Vec p) ->
      Store.GCM X0 F dt nt param s = Some ((h, t), s') ->
      s !! h = None /\ s !! t = None /\ h <> t
      /\ forall (F2 dt2 : float) (nt2 : nat) (res2 : Store.loc * Store.loc)
                (s'' : Store.store),
           Store.GCM X0 F2 dt2 nt2 param s' = Some (res2, s'') ->
           s'' !! h = s' !! h /\ s'' !! t = s' !! t)
  /\ (forall (P : Type) (time_stepping : stepper P) (rhs : @tendency P)
          (s s' : Store.store) (X0 : Store.loc)
          (x0 : ndarray) (dt : float) (nt : nat) (param : P)
          (h t : Store.loc),
      s !! X0 = Some (Store.Vec x0) ->
      Store.call time_stepping rhs X0 dt nt param s = Some ((h, t), s') ->
      s !! h = None /\ s !! t = None /\ h <> t
      /\ forall (dt2 : float) (nt2 : nat) (param2 : P)
                (res2 : Store.loc * Store.loc) (s'' : Store.store),
           Store.call time_stepping rhs X0 dt2 nt2 param2 s'
             = Some (res2, s'') ->
           s'' !! h = s' !! h /\ s'' !! t = s' !! t).
Proof.
  split.
  - intros s s' X0 param x0 p F dt nt h t HX Hp Hrun.
    pose proof (GCM_refines s X0 param x0 p F dt nt HX Hp) as Hr.
    destruct (run_fresh _ _ _ _ _ _ _ Hr Hrun)
      as (Hh & Ht & Hne & [oh Hoh] & [ot Hot]).
    pose proof (run_preserves _ _ _ _ _ _ Hr Hrun) as Hkeep.
    do 3 (split; [done|]).
    intros F2 dt2 nt2 res2 s'' Hrun2.
    pose proof (GCM_refines s' X0 param x0 p F2 dt2 nt2
                  (Hkeep _ _ HX) (Hkeep _ _ Hp)) as Hr2.
    pose proof (run_preserves _ _ _ _ _ _ Hr2 Hrun2) as Hkeep2.
    rewrite Hoh, Hot. split; by apply Hkeep2.
  - intros P ts rhs s s' X0 x0 dt nt param h t HX Hrun.
    pose proof (call_refines ts rhs s X0 x0 dt nt param HX) as Hr.
    destruct (run_fresh _ _ _ _ _ _ _ Hr Hrun)
      as (Hh & Ht & Hne & [oh Hoh] & [ot Hot]).
    pose proof (run_preserves _ _ _ _ _ _ Hr Hrun) as Hkeep.
    do 3 (split; [done|]).
    intros dt2 nt2 param2 res2 s'' Hrun2.
    pose proof (call_refines ts rhs s' X0 x0 dt2 nt2 param2
                  (Hkeep _ _ HX)) as Hr2.
    pose proof (run_preserves _ _ _ _ _ _ Hr2 Hrun2) as Hkeep2.
    rewrite Hoh, Hot. split; by apply Hkeep2.
Qed.

Lemma X12_results_are_new_witness :
  (exists h t s' res2 s'',
      Store.GCM 0 1500 0.5 3 1 Examples.caller_store = Some ((h, t), s')
      /\ Examples.caller_store !! h = None
      /\ Examples.caller_store !! t = None /\ h <> t
      /\ Store.GCM 0 18 0.125 2 1 s' = Some (res2, s'')
      /\ s'' !! h = s' !! h /\ s'' !! t = s' !! t)
  /\ (exists h t s' res2 s'',
      Store.call RK4 (GCM_network.rhs Examples.gcm_linear_net)
        0 0.125%float 2 (Examples.linear_network 0.5 1)
        Examples.caller_store = Some ((h, t), s')
      /\ Examples.caller_store !! h = None
      /\ Examples.caller_store !! t = None /\ h <> t
      /\ Store.call RK4 (GCM_network.rhs Examples.gcm_linear_net)
           0 0.5%float 1 Examples.scalar_network s' = Some (res2, s'')
      /\ s'' !! h = s' !! h /\ s'' !! t = s' !! t).
Proof.
  destruct X12_results_are_new as (H1 & H2).
  split.
  - destruct (Store.GCM 0 1500 0.5 3 1 Examples.caller_store)
      as [[[h t] s']|] eqn:E; [|vm_compute in E; discriminate E].
    destruct (H1 Examples.caller_store s' 0 1 Examples.X_rest
                default_param 1500%float 0.5%float 3 h t
                eq_refl eq_refl E) as (Hh & Ht & Hne & Hlater).
    destruct (Store.GCM 0 18 0.125 2 1 s') as [[res2 s'']|] eqn:E2.
    + destruct (Hlater _ _ _ _ _ E2) as [Hkh Hkt].
      exists h, t, s', res2, s''.
      split; [reflexivity|]. split; [exact Hh|]. split; [exact Ht|].
      split; [exact Hne|]. split; [exact E2|].
      split; [exact Hkh|exact Hkt].
    + vm_compute in E. injection E as <- <- <-.
      vm_compute in E2. discriminate E2.
  - destruct (Store.call RK4 (GCM_network.rhs Examples.gcm_linear_net)
                0 0.125%float 2 (Examples.linear_network 0.5 1)
                Examples.caller_store)
      as [[[h t] s']|] eqn:E; [|vm_compute in E; discriminate E].
    destruct (H2 _ RK4 (GCM_network.rhs Examples.gcm_linear_net)
                Examples.caller_store s' 0 Examples.X_rest
                0.125%float 2 (Examples.linear_network 0.5 1) h t
                eq_refl E) as (Hh & Ht & Hne & Hlater).
    destruct (Store.call RK4 (GCM_network.rhs Examples.gcm_linear_net)
                0 0.5%float 1 Examples.scalar_network s')
      as [[res2 s'']|] eqn:E2.
    + destruct (Hlater _ _ _ _ _ E2) as [Hkh Hkt].
      exists h, t, s', res2, s''.
      split; [reflexivity|]. split; [exact Hh|]. split; [exact Ht|].
      split; [exact Hne|]. split; [exact E2|].
      split; [exact Hkh|exact Hkt].
    + vm_compute in E. injection E as <- <- <-.
      vm_compute in E2. discriminate E2.
Defined.

Section CallContinues.
Context {P : Type}.
Variable time_stepping : stepper P.
Variable rhs : @tendency P.

Lemma call_rows_app (dt : float) (param : P) (K n2 : nat) :
  forall (n1 : nat) (X Xl : ndarray) (rows1 rows2 : list ndarray),
    call_rows time_stepping rhs dt param K n1 X = Some rows1 ->
    call_iter time_stepping rhs dt param n1 X = Some Xl ->
    call_rows time_stepping rhs dt param K n2 Xl = Some rows2 ->
    call_rows time_stepping rhs dt param K (n1 + n2) X
    = Some (rows1 ++ rows2).
Proof.
  induction n1 as [|n1 IH]; intros X Xl rows1 rows2; simpl.
  - by intros [= <-] [= <-].
  - destruct (time_stepping rhs dt X param) as [X'|]; [simpl|done].
    destruct (np.stretch K X') as [row|]; [simpl|done].
    destruct (call_rows _ _ _ _ _ n1 X') as [rows'|] eqn:E; [simpl|done].
    intros [= <-] Hit H2.
    by rewrite (IH X' Xl rows' rows2 E Hit H2).
Qed.

Lemma call_rows_last (dt : float) (param : P) (K : nat) :
  forall (n : nat) (Y Yl : ndarray) (rows : list ndarray),
    call_rows time_stepping rhs dt param K (S n) Y = Some rows ->
    call_iter time_stepping rhs dt param (S n) Y = Some Yl ->
    length Yl = K -> last rows = Some Yl.
Proof.
  induction n as [|n IH]; intros Y Yl rows.
  - simpl.
    destruct (time_stepping rhs dt Y param) as [Y'|]; [simpl|done].
    intros Hrows [= ->] HYl.
    rewrite stretch_same in Hrows by done. simpl in Hrows.
    by injection Hrows as <-.
  - change (call_rows time_stepping rhs dt param K (S (S n)) Y)
      with (X' ← time_stepping rhs dt Y param;
            row ← np.stretch K X';
            rows' ← call_rows time_stepping rhs dt param K (S n) X';
            Some (row :: rows')).
    change (call_iter time_stepping rhs dt param (S (S n)) Y)
      with (X' ← time_stepping rhs dt Y param;
            call_iter time_stepping rhs dt param (S n) X').
    unfold mbind, option_bind.
    destruct (time_stepping rhs dt Y param) as [Y'|]; [|done].
    destruct (np.stretch K Y') as [row|]; [|done].
    destruct (call_rows time_stepping rhs dt param K (S n) Y')
      as [rows'|] eqn:E; [|done].
    intros [= <-] Hit HYl.
    pose proof (call_rows_length _ _ _ _ _ _ _ _ E) as Hlen.
    rewrite last_cons, (IH Y' Yl rows' E Hit HYl). done.
Qed.

Lemma call_continues (X0 Xl : ndarray) (dt : float) (n1 n2 : nat)
    (param : P) (h1 h2 : ndarray2) (t1 t2 : ndarray) :
  call time_stepping rhs X0 dt n1 param = Some (h1, t1) ->
  call_iter time_stepping rhs dt param n1 X0 = Some Xl ->
  length Xl = length X0 ->
  call time_stepping rhs Xl dt n2 param = Some (h2, t2) ->
  call time_stepping rhs X0 dt (n1 + n2) param
  = Some (h1 ++ tail h2, np.time_axis dt (n1 + n2 + 1))
  /\ last h1 = Some Xl.
Proof.
  rewrite !call_eq. intros H1 Hit HL H2.
  destruct (call_rows _ _ _ _ _ n1 X0) as [rows1|] eqn:E1;
    [simpl in H1|done].
  rewrite HL in H2.
  destruct (call_rows _ _ _ _ _ n2 Xl) as [rows2|] eqn:E2;
    [simpl in H2|done].
  injection H1 as <- <-. injection H2 as <- <-.
  rewrite (call_rows_app dt param _ n2 n1 X0 Xl rows1 rows2 E1 Hit E2).
  split; [done|].
  destruct n1 as [|n1].
  - simpl in E1, Hit. injection E1 as <-. by injection Hit as ->.
  - rewrite last_cons.
    by rewrite (call_rows_last dt param _ n1 X0 Xl rows1 E1 Hit HL).
Qed.

End CallContinues.

(** X13.  The loop of a [__call__] method carries nothing but the
    state [X] from one iteration to the next.  With [Xl] the state the
    loop holds after [n1] steps, of the length of the initial condition,
    a run of [n1 + n2] steps returns the history of the run of [n1] steps
    followed by the rows of a run of [n2] steps started from [Xl]
    (without its first row, which holds [Xl] itself); the time axis is
    [dt * np.arange(n1 + n2 + 1)].  The statement is about the state the
    loop holds, which the caller does not receive: the last row of the
    history holds its values as [float64]. *)
Theorem X13_call_continues :
  (forall (P : Type) (self : GCM_without_parameterization.t P)
          (X0 Xl : ndarray) (dt : float) (n1 n2 : nat) (param : P)
          (h1 h2 : ndarray2) (t1 t2 : ndarray),
      GCM_without_parameterization.__call__ self X0 dt n1 param
        = Some (h1, t1) ->
      call_iter (GCM_without_parameterization.time_stepping self)
        (GCM_without_parameterization.rhs self) dt param n1 X0 = Some Xl ->
      length Xl = length X0 ->
      GCM_without_parameterization.__call__ self Xl dt n2 param
        = Some (h2, t2) ->
      GCM_without_parameterization.__call__ self X0 dt (n1 + n2) param
      = Some (h1 ++ tail h2, np.time_axis dt (n1 + n2 + 1)))
  /\ (forall (P : Type) (self : GCM_network.t P)
          (X0 Xl : ndarray) (dt : float) (n1 n2 : nat) (param : P)
          (h1 h2 : ndarray2) (t1 t2 : ndarray),
      GCM_network.__call__ self X0 dt n1 param = Some (h1, t1) ->
      call_iter (GCM_network.time_stepping self)
        (GCM_network.rhs self) dt param n1 X0 = Some Xl ->
      length Xl = length X0 ->
      GCM_network.__call__ self Xl dt n2 param = Some (h2, t2) ->
      GCM_network.__call__ self X0 dt (n1 + n2) param
      = Some (h1 ++ tail h2, np.time_axis dt (n1 + n2 + 1))).
Proof.
  split.
  - intros P self X0 Xl dt n1 n2 param h1 h2 t1 t2 E1 Ei HL E2.
    by destruct (call_continues _ _ _ _ _ _ _ _ _ _ _ _ E1 Ei HL E2).
  - intros P self X0 Xl dt n1 n2 param h1 h2 t1 t2 E1 Ei HL E2.
    by destruct (call_continues _ _ _ _ _ _ _ _ _ _ _ _ E1 Ei HL E2).
Qed.

Lemma X13_call_continues_witness :
  (exists h1 t1 Xl h2 t2,
      GCM_without_parameterization.__call__ Examples.gcm_no_param
        Examples.X_init 0.125%float 2 default_param = Some (h1, t1)
      /\ call_iter
           (GCM_without_parameterization.time_stepping
              Examples.gcm_no_param)
           (GCM_without_parameterization.rhs Examples.gcm_no_param)
           0.125%float default_param 2 Examples.X_init = Some Xl
      /\ length Xl = length Examples.X_init
      /\ GCM_without_parameterization.__call__ Examples.gcm_no_param
           Xl 0.125%float 1 default_param = Some (h2, t2)
      /\ GCM_without_parameterization.__call__ Examples.gcm_no_param
           Examples.X_init 0.125%float (2 + 1) default_param
         = Some (h1 ++ tail h2, np.time_axis 0.125 (2 + 1 + 1)))
  /\ (exists h1 t1 Xl h2 t2,
      GCM_network.__call__ Examples.gcm_linear_net
        Examples.X_init 0.125%float 2 (Examples.linear_network 0.5 1)
        = Some (h1, t1)
      /\ call_iter (GCM_network.time_stepping Examples.gcm_linear_net)
           (GCM_network.rhs Examples.gcm_linear_net)
           0.125%float (Examples.linear_network 0.5 1) 2
           Examples.X_init = Some Xl
      /\ length Xl = length Examples.X_init
      /\ GCM_network.__call__ Examples.gcm_linear_net
           Xl 0.125%float 1 (Examples.linear_network 0.5 1)
         = Some (h2, t2)
      /\ GCM_network.__call__ Examples.gcm_linear_net
           Examples.X_init 0.125%float (2 + 1)
           (Examples.linear_network 0.5 1)
         = Some (h1 ++ tail h2, np.time_axis 0.125 (2 + 1 + 1))).
Proof.
  destruct X13_call_continues as (H1 & H2).
  split.
  - destruct (GCM_without_parameterization.__call__ Examples.gcm_no_param
                Examples.X_init 0.125%float 2 default_param)
      as [[h1 t1]|] eqn:E1; [|vm_compute in E1; discriminate E1].
    destruct (call_iter
                (GCM_without_parameterization.time_stepping
                   Examples.gcm_no_param)
                (GCM_without_parameterization.rhs Examples.gcm_no_param)
                0.125%float default_param 2 Examples.X_init)
      as [Xl|] eqn:Ei; [|vm_compute in Ei; discriminate Ei].
    assert (length Xl = length Examples.X_init) as HL.
    { vm_compute in Ei. injection Ei as <-. reflexivity. }
    destruct (GCM_without_parameterization.__call__ Examples.gcm_no_param
                Xl 0.125%float 1 default_param)
      as [[h2 t2]|] eqn:E2.
    + pose proof (H1 _ Examples.gcm_no_param Examples.X_init Xl
                    0.125%float 2 1 default_param h1 h2 t1 t2
                    E1 Ei HL E2) as Hc.
      exists h1, t1, Xl, h2, t2.
      split; [reflexivity|]. split; [reflexivity|]. split; [exact HL|].
      split; [exact E2|exact Hc].
    + vm_compute in Ei. injection Ei as <-.
      vm_compute in E2. discriminate E2.
  - destruct (GCM_network.__call__ Examples.gcm_linear_net
                Examples.X_init 0.125%float 2
                (Examples.linear_network 0.5 1))
      as [[h1 t1]|] eqn:E1; [|vm_compute in E1; discriminate E1].
    destruct (call_iter (GCM_network.time_stepping Examples.gcm_linear_net)
                (GCM_network.rhs Examples.gcm_linear_net)
                0.125%float (Examples.linear_network 0.5 1) 2
                Examples.X_init)
      as [Xl|] eqn:Ei; [|vm_compute in Ei; discriminate Ei].
    assert (length Xl = length Examples.X_init) as HL.
    { vm_compute in Ei. injection Ei as <-. reflexivity. }
    destruct (GCM_network.__call__ Examples.gcm_linear_net
                Xl 0.125%float 1 (Examples.linear_network 0.5 1))
      as [[h2 t2]|] eqn:E2.
    + pose proof (H2 _ Examples.gcm_linear_net Examples.X_init Xl
                    0.125%float 2 1 (Examples.linear_network 0.5 1)
                    h1 h2 t1 t2 E1 Ei HL E2) as Hc.
      exists h1, t1, Xl, h2, t2.
      split; [reflexivity|]. split; [reflexivity|]. split; [exact HL|].
      split; [exact E2|exact Hc].
    + vm_compute in Ei. injection Ei as <-.
      vm_compute in E2. discriminate E2.
Defined.

(** * The default closure, and the bound on the stored rows *)

(** ** The default closure [param=[0]] *)







(** ** The bound on the stored rows *)

Lemma fold_maximum_not_nan (r : ndarray) (a : float) :
  is_nan a = false -> existsb is_nan r = false ->
  is_nan (fold_left np.maximum r a) = false.
Proof.
  revert a. induction r as [|b r IH]; intros a Ha Hr; simpl; [done|].
  simpl in Hr. apply orb_false_elim in Hr as [Hb Hr].
  apply IH; [by apply maximum_not_nan|done].
Qed.

Lemma existsb_abs_not_nan (X : ndarray) :
  existsb is_nan X = false -> existsb is_nan (np.abs X) = false.
Proof.
  induction X as [|x X IH]; simpl; [done|].
  intros H. apply orb_false_elim in H as [Hx HX].
  by rewrite abs_not_nan, IH.
Qed.

(** The largest absolute component of a state without NaN that does not
    trip the guard is within the threshold. *)
Lemma diverged_false_max (X : ndarray) :
  diverged X = Some false -> existsb is_nan X = false ->
  exists mx, np.max (np.abs X) = Some mx /\ (mx <=? 1e3)%float = true.
Proof.
  unfold diverged. destruct X as [|x X]; [done|]. simpl.
  intros [= Hc] Hn. apply orb_false_elim in Hn as [Hx HX].
  eexists. split; [done|].
  apply ltb_false_leb; [done| |done].
  apply fold_maximum_not_nan; [by apply abs_not_nan|].
  by apply existsb_abs_not_nan.
Qed.

Lemma diverged_nan_row (K : nat) :
  0 < K -> diverged (np.nan_row K) = Some false.
Proof.
  intros HK. apply diverged_nan.
  destruct K as [|K]; [lia|]. reflexivity.
Qed.

(** C9, as amended.  Every row of the history of [GCM] that is filled is
    an iterate of the update that did not trip the guard: when it holds
    no NaN, its largest absolute component is at most 1e3, and so is
    every component; a row with a NaN is under no bound.  The state that
    trips the guard is in no row of the history, and the rows never
    filled are the NaN rows they were created as. *)
Theorem C9_stored_rows_bounded (X0 : ndarray) (F dt : float) (nt : nat)
    (param : list float) (hist : ndarray2) (time : ndarray) :
  GCM X0 F dt nt param = Some (hist, time) ->
  exists m, m <= nt
    /\ (forall i, i < m ->
          exists Xi, hist !! i = Some Xi
            /\ GCM_iter F dt param (S i) X0 = Some Xi
            /\ diverged Xi = Some false
            /\ (existsb is_nan Xi = false ->
                (exists mx, np.max (np.abs Xi) = Some mx
                            /\ (mx <=? 1e3)%float = true)
                /\ Forall (fun x => (abs x <=? 1e3)%float = true) Xi))
    /\ (forall i, m <= i < nt ->
          hist !! i = Some (np.nan_row (length X0)))
    /\ (m < nt ->
          exists X', GCM_iter F dt param (S m) X0 = Some X'
            /\ diverged X' = Some true
            /\ forall i row, hist !! i = Some row -> row <> X').
Proof.
  intros H.
  destruct (GCM_rows _ _ _ _ _ _ _ H) as (m & Hm & Hset & Hunset & Hstop).
  assert (length hist = nt) as Hlen.
  { pose proof H as Hinv. apply GCM_inv in Hinv. injection Hinv as -> _.
    pose proof (GCM_states_length F dt param nt X0).
    rewrite length_app, length_replicate. lia. }
  exists m. split; [done|]. split; [|split; [done|]].
  - intros i Hi. destruct (Hset i Hi) as (Xi & H1 & H2 & H3).
    exists Xi. split; [done|]. split; [done|]. split; [done|].
    intros Hn. split.
    + by apply diverged_false_max.
    + by apply diverged_false_bound.
  - intros Hlt. destruct (Hstop Hlt) as (X' & H1 & H2).
    exists X'. split; [done|]. split; [done|].
    intros i row Hrow ->.
    assert (0 < length X0) as HK.
    { destruct X0 as [|x X0]; [|simpl; lia].
      rewrite GCM_empty in H. destruct nt; [lia|done]. }
    pose proof (lookup_lt_Some _ _ _ Hrow) as Hi.
    destruct (decide (i < m)) as [Him|Him].
    + destruct (Hset i Him) as (Xi & H3 & _ & H4). congruence.
    + rewrite Hunset in Hrow by lia. injection Hrow as <-.
      rewrite diverged_nan_row in H2 by done. done.
Qed.

Lemma C9_stored_rows_bounded_witness :
  exists hist time m,
    GCM Examples.X_rest 1500 0.5 3 default_param = Some (hist, time)
    /\ m <= 3
    /\ (forall i, i < m ->
          exists Xi, hist !! i = Some Xi
            /\ GCM_iter 1500 0.5 default_param (S i) Examples.X_rest
               = Some Xi
            /\ diverged Xi = Some false
            /\ (existsb is_nan Xi = false ->
                (exists mx, np.max (np.abs Xi) = Some mx
                            /\ (mx <=? 1e3)%float = true)
                /\ Forall (fun x => (abs x <=? 1e3)%float = true) Xi))
    /\ (forall i, m <= i < 3 ->
          hist !! i = Some (np.nan_row (length Examples.X_rest)))
    /\ (m < 3 ->
          exists X', GCM_iter 1500 0.5 default_param (S m) Examples.X_rest
                     = Some X'
            /\ diverged X' = Some true
            /\ forall i row, hist !! i = Some row -> row <> X').
Proof.
  destruct (GCM Examples.X_rest 1500 0.5 3 default_param)
    as [[hist time]|] eqn:E; [|vm_compute in E; discriminate E].
  destruct (C9_stored_rows_bounded Examples.X_rest 1500%float 0.5%float 3
              default_param hist time E)
    as (m & Hm & Hset & Hunset & Hstop).
  exists hist, time, m.
  split; [reflexivity|]. split; [exact Hm|]. split; [exact Hset|].
  split; [exact Hunset|exact Hstop].
Defined.

(** A stored row with a NaN and a component beyond the threshold: its
    largest absolute component is NaN, which does not compare greater
    than 1e3, nor at most 1e3. *)
Lemma C9_counterexample :
  exists hist time row x mx,
    GCM Runs.X_nan_large 18 0.125 1 default_param = Some (hist, time)
    /\ hist !! 0 = Some row
    /\ GCM_step 18 0.125 default_param Runs.X_nan_large = Some row
    /\ row !! 5 = Some x
    /\ x = 4377.25%float
    /\ (1e3 <? abs x)%float = true
    /\ np.max (np.abs row) = Some mx
    /\ (mx <=? 1e3)%float = false.
Proof.
  do 5 eexists.
  split; [vm_compute; reflexivity|].
  split; [reflexivity|].
  split; [vm_compute; reflexivity|].
  split; [reflexivity|]. split; [reflexivity|].
  split; [reflexivity|].
  split; [vm_compute; reflexivity|reflexivity].
Qed.
